(** * The realtime client of supabase-js: connection and channel sessions

    A shallow embedding of [packages/core/realtime-js/src/RealtimeClient.ts],
    [packages/core/realtime-js/src/lib/phoenixAdapter.ts] and the relay of
    [packages/core/realtime-js/src/RealtimePresence.ts].

    The client runs on a single JavaScript event loop.  Every method body is
    a run of synchronous code between two suspension points ([await],
    [setTimeout], a reply from the transport), so each such run is one
    function on the state below, and what happens between two runs is a step
    of the environment: the transport changes its connection state, a timer
    fires, a promise settles.

    The transport (the Phoenix [Socket], [Channel] and [Timer]) is an
    external collaborator.  Calls into it are recorded in [effects], in the
    order in which they are made; its connection state is read by the client
    and written only by the environment. *)

From Stdlib Require Import ZArith Lia Floats Ascii.
From stdpp Require Import base option list gmap strings pretty.

(** ** JavaScript values *)

(** A [string | null] value is [option string].  [if (v)] takes the branch
    for every string but the empty one. *)
Definition truthy (v : option string) : bool :=
  match v with
  | Some s => negb (String.eqb s "")
  | None => false
  end.

(** [a != b] on [string | null] values. *)
Definition loose_neq (a b : option string) : bool :=
  negb (bool_decide (a = b)).

(** Numbers are IEEE-754 doubles.  The ref counter starts at 0 and is only
    ever incremented by one or reset to 0, so it holds an integer between 0
    and 2^53: up to 2^53 every integer is a double and [n + 1] is exact,
    and [2^53 + 1] rounds back to [2^53] (ties to even).  [js_succ] is
    [n + 1] on that range. *)
Definition MAX_EXACT : Z := 2 ^ 53.

Definition js_succ (n : Z) : Z :=
  if (n <? MAX_EXACT)%Z then (n + 1)%Z else n.

(** [Number.prototype.toString] on an integer below 10^21 is its decimal
    form, which is stdpp's [pretty] on [Z]. *)
Definition toString (n : Z) : string := pretty n.

(** ** Types of [RealtimeClient.ts] and [constants.ts] *)

Inductive CONNECTION_STATE := Connecting | Open | Closing | Closed.

Inductive HeartbeatStatus :=
  HB_sent | HB_ok | HB_error | HB_timeout | HB_disconnected.

(** [RealtimeRemoveChannelResponse]: ['ok' | 'timed out' | 'error']. *)
Inductive RealtimeRemoveChannelResponse := R_ok | R_timed_out | R_error.

Record RealtimeMessage := mkMessage {
  msg_topic : string;
  msg_event : string;
  msg_payload : list (string * string);
  msg_ref : string;
  msg_join_ref : option string
}.

(** The constants imported from [./lib/constants], a file that is not part
    of the sources at hand: they are parameters of the model. *)
Class Constants := {
  DEFAULT_VERSION : string;
  WS_CLOSE_NORMAL : Z;
  CHANNEL_EVENTS_access_token : string
}.

(** Sample values, for running the model on examples. *)
Definition sample_constants : Constants :=
  {| DEFAULT_VERSION := "1.0.0";
     WS_CLOSE_NORMAL := 1000;
     CHANNEL_EVENTS_access_token := "access_token" |}.

Definition HEARTBEAT_INTERVAL : Z := 25000.
Definition RECONNECT_DELAY : Z := 10.
Definition HEARTBEAT_TIMEOUT_FALLBACK : Z := 100.
Definition RECONNECT_INTERVALS : list Z := [1000; 2000; 5000; 10000]%Z.
Definition DEFAULT_RECONNECT_FALLBACK : Z := 10000.

(** The default [reconnectAfterMs]:
    [RECONNECT_INTERVALS[tries - 1] || DEFAULT_RECONNECT_FALLBACK]. *)
Definition default_reconnectAfterMs (tries : nat) : Z :=
  match tries with
  | O => DEFAULT_RECONNECT_FALLBACK
  | S i => default DEFAULT_RECONNECT_FALLBACK (RECONNECT_INTERVALS !! i)
  end.

(** ** Channel sessions *)

(** The payload [_performAuth] hands to [updateJoinPayload]. *)
Record JoinPayload := mkJoinPayload {
  jp_access_token : string;
  jp_version : string
}.

Global Instance JoinPayload_eq_dec : EqDecision JoinPayload.
Proof. solve_decision. Defined.

(** A [RealtimeChannel] with the [PhoenixChannel] it wraps.  [chan_id] is the
    identity of the object.  [params] is the reference to the options object
    the channel was created with.  [joinedOnce] is the flag of the Phoenix
    channel: its [push] throws while the flag is unset.  [joinPayload] is
    what [updateJoinPayload] last stored. *)
Record RealtimeChannel := mkChannel {
  chan_id : nat;
  topic : string;
  params : nat;
  joinedOnce : bool;
  joinPayload : option JoinPayload
}.

Global Instance RealtimeChannel_eq_dec : EqDecision RealtimeChannel.
Proof. solve_decision. Defined.

(** ** Suspended work *)

Inductive Settlement := Fulfilled | Rejected.

(** A promise the client waits on.  The promise returned by
    [_performAuth] is still waiting for the [accessToken] callback, or
    settled.  The promise returned by [channel.unsubscribe()] is waiting for
    the transport's reply to the leave of its channel, or resolved with the
    status.  The promise built by [Promise.all] stands for the promises it
    was given, in their order. *)
Inductive PromiseState :=
| AwaitingAccessToken
| Settled (r : Settlement)
| AwaitingLeave (ch : RealtimeChannel)
| LeaveReplied (status : RealtimeRemoveChannelResponse)
| AllOf (ps : list nat).

(** What the [accessToken] callback's promise does when it settles. *)
Inductive ProviderOutcome := Resolves (token : option string) | Rejects.

(** A function suspended at an [await]: [setAuth] at
    [await this._authPromise], called by the application ([K_setAuth None])
    or through [_setAuthSafely(context)]; the reconnection callback inside
    [_waitForAuthIfNeeded]; [removeChannel] at
    [await channel.unsubscribe()]; [removeAllChannels] at
    [await Promise.all(...)]. *)
Inductive Continuation :=
| K_setAuth (context : option string)
| K_reconnect
| K_removeChannel
| K_removeAllChannels.

(** The callbacks the client hands to [setTimeout] and to the Phoenix
    [Timer]. *)
Inductive TimerTask :=
| T_heartbeat_fallback   (* sendHeartbeat: the callback after a timeout *)
| T_reconnect_tick       (* the Timer's own timeout: tries++, callback() *)
| T_reconnect_settle.    (* _setupReconnectionTimer: the inner callback *)

(** ** Calls that leave the client *)

Inductive Effect :=
| SocketConnect
| SocketDisconnect (code : option Z) (reason : option string)
| SocketPush (msg : RealtimeMessage)
| SocketLog (kind msg : string)
| HeartbeatCallback (status : HeartbeatStatus)
| AccessTokenCall
| UpdateJoinPayload (chan : nat) (payload : JoinPayload)
| ChannelPush (chan : nat) (event : string) (access_token : option string)
| ChannelLeave (chan : nat)
| SetTimeout (task : TimerTask) (delay : Z)
| TimerSchedule (delay : Z)
| PromiseRejected (k : Continuation)
| RemoveChannelReturns (status : RealtimeRemoveChannelResponse)
| RemoveAllChannelsReturns (statuses : list RealtimeRemoveChannelResponse).

(** ** The client *)

Record RealtimeClient := mkClient {
  (* the transport's connection state, read through the socket *)
  socketState : CONNECTION_STATE;
  (* fields of the class *)
  accessTokenValue : option string;
  channels : list RealtimeChannel;
  pendingHeartbeatRef : option string;
  heartbeatCallbackThrows : HeartbeatStatus -> bool;
  ref : Z;
  reconnectTries : nat;
  reconnectAfterMs : nat -> Z;
  accessToken : bool;
  _wasManualDisconnect : bool;
  _authPromise : option nat;
  (* the event loop *)
  promises : list PromiseState;
  awaiting : list (nat * Continuation);
  timeouts : list (TimerTask * Z);
  allocated : nat;
  effects : list Effect
}.

Definition set_socketState v c := mkClient v (accessTokenValue c) (channels c) (pendingHeartbeatRef c) (heartbeatCallbackThrows c) (ref c) (reconnectTries c) (reconnectAfterMs c) (accessToken c) (_wasManualDisconnect c) (_authPromise c) (promises c) (awaiting c) (timeouts c) (allocated c) (effects c).
Definition set_accessTokenValue v c := mkClient (socketState c) v (channels c) (pendingHeartbeatRef c) (heartbeatCallbackThrows c) (ref c) (reconnectTries c) (reconnectAfterMs c) (accessToken c) (_wasManualDisconnect c) (_authPromise c) (promises c) (awaiting c) (timeouts c) (allocated c) (effects c).
Definition set_channels v c := mkClient (socketState c) (accessTokenValue c) v (pendingHeartbeatRef c) (heartbeatCallbackThrows c) (ref c) (reconnectTries c) (reconnectAfterMs c) (accessToken c) (_wasManualDisconnect c) (_authPromise c) (promises c) (awaiting c) (timeouts c) (allocated c) (effects c).
Definition set_pendingHeartbeatRef v c := mkClient (socketState c) (accessTokenValue c) (channels c) v (heartbeatCallbackThrows c) (ref c) (reconnectTries c) (reconnectAfterMs c) (accessToken c) (_wasManualDisconnect c) (_authPromise c) (promises c) (awaiting c) (timeouts c) (allocated c) (effects c).
Definition set_heartbeatCallbackThrows v c := mkClient (socketState c) (accessTokenValue c) (channels c) (pendingHeartbeatRef c) v (ref c) (reconnectTries c) (reconnectAfterMs c) (accessToken c) (_wasManualDisconnect c) (_authPromise c) (promises c) (awaiting c) (timeouts c) (allocated c) (effects c).
Definition set_ref v c := mkClient (socketState c) (accessTokenValue c) (channels c) (pendingHeartbeatRef c) (heartbeatCallbackThrows c) v (reconnectTries c) (reconnectAfterMs c) (accessToken c) (_wasManualDisconnect c) (_authPromise c) (promises c) (awaiting c) (timeouts c) (allocated c) (effects c).
Definition set_reconnectTries v c := mkClient (socketState c) (accessTokenValue c) (channels c) (pendingHeartbeatRef c) (heartbeatCallbackThrows c) (ref c) v (reconnectAfterMs c) (accessToken c) (_wasManualDisconnect c) (_authPromise c) (promises c) (awaiting c) (timeouts c) (allocated c) (effects c).
Definition set_wasManualDisconnect v c := mkClient (socketState c) (accessTokenValue c) (channels c) (pendingHeartbeatRef c) (heartbeatCallbackThrows c) (ref c) (reconnectTries c) (reconnectAfterMs c) (accessToken c) v (_authPromise c) (promises c) (awaiting c) (timeouts c) (allocated c) (effects c).
Definition set_authPromise v c := mkClient (socketState c) (accessTokenValue c) (channels c) (pendingHeartbeatRef c) (heartbeatCallbackThrows c) (ref c) (reconnectTries c) (reconnectAfterMs c) (accessToken c) (_wasManualDisconnect c) v (promises c) (awaiting c) (timeouts c) (allocated c) (effects c).
Definition set_promises v c := mkClient (socketState c) (accessTokenValue c) (channels c) (pendingHeartbeatRef c) (heartbeatCallbackThrows c) (ref c) (reconnectTries c) (reconnectAfterMs c) (accessToken c) (_wasManualDisconnect c) (_authPromise c) v (awaiting c) (timeouts c) (allocated c) (effects c).
Definition set_awaiting v c := mkClient (socketState c) (accessTokenValue c) (channels c) (pendingHeartbeatRef c) (heartbeatCallbackThrows c) (ref c) (reconnectTries c) (reconnectAfterMs c) (accessToken c) (_wasManualDisconnect c) (_authPromise c) (promises c) v (timeouts c) (allocated c) (effects c).
Definition set_timeouts v c := mkClient (socketState c) (accessTokenValue c) (channels c) (pendingHeartbeatRef c) (heartbeatCallbackThrows c) (ref c) (reconnectTries c) (reconnectAfterMs c) (accessToken c) (_wasManualDisconnect c) (_authPromise c) (promises c) (awaiting c) v (allocated c) (effects c).
Definition set_allocated v c := mkClient (socketState c) (accessTokenValue c) (channels c) (pendingHeartbeatRef c) (heartbeatCallbackThrows c) (ref c) (reconnectTries c) (reconnectAfterMs c) (accessToken c) (_wasManualDisconnect c) (_authPromise c) (promises c) (awaiting c) (timeouts c) v (effects c).
Definition set_effects v c := mkClient (socketState c) (accessTokenValue c) (channels c) (pendingHeartbeatRef c) (heartbeatCallbackThrows c) (ref c) (reconnectTries c) (reconnectAfterMs c) (accessToken c) (_wasManualDisconnect c) (_authPromise c) (promises c) (awaiting c) (timeouts c) (allocated c) v.

(** ** A state monad for method bodies *)

Definition M (A : Type) : Type := RealtimeClient -> A * RealtimeClient.

Definition ret {A} (a : A) : M A := fun c => (a, c).

Definition bind {A B} (m : M A) (k : A -> M B) : M B :=
  fun c => let (a, c') := m c in k a c'.

Declare Scope js_scope.
Delimit Scope js_scope with js.
Notation "x <- m ;; k" := (bind m (fun x => k))
  (at level 100, m at next level, right associativity) : js_scope.
Notation "m ;; k" := (bind m (fun _ => k))
  (at level 100, right associativity) : js_scope.
Local Open Scope js_scope.

Definition gets {A} (f : RealtimeClient -> A) : M A := fun c => (f c, c).
Definition modify (f : RealtimeClient -> RealtimeClient) : M unit :=
  fun c => (tt, f c).
Definition when (b : bool) (m : M unit) : M unit := if b then m else ret tt.

(** The state a method body leaves, and the value it returns. *)
Definition exec {A} (m : M A) (c : RealtimeClient) : RealtimeClient := snd (m c).
Definition eval {A} (m : M A) (c : RealtimeClient) : A := fst (m c).

Definition emit (e : Effect) : M unit :=
  modify (fun c => set_effects (effects c ++ [e]) c).

(** [this.log(kind, msg, data)] forwards to the socket's logger. *)
Definition log (kind msg : string) : M unit := emit (SocketLog kind msg).

(** [setTimeout(task, delay)]. *)
Definition setTimeout (task : TimerTask) (delay : Z) : M unit :=
  emit (SetTimeout task delay) ;;
  modify (fun c => set_timeouts (timeouts c ++ [(task, delay)]) c).

(** ** Queries: pass-through reads of the transport state *)

Definition isConnected (c : RealtimeClient) : bool :=
  match socketState c with Open => true | _ => false end.
Definition isConnecting (c : RealtimeClient) : bool :=
  match socketState c with Connecting => true | _ => false end.
Definition isDisconnecting (c : RealtimeClient) : bool :=
  match socketState c with Closing => true | _ => false end.

(** ** [_makeRef] *)

Definition _makeRef : M string :=
  r <- gets ref ;;
  let newRef := js_succ r in
  (if (newRef =? r)%Z then modify (set_ref 0%Z) else modify (set_ref newRef)) ;;
  r' <- gets ref ;;
  ret (toString r').

Section Client.
Context {K : Constants}.

(** ** Construction *)

(** The state the constructor leaves, for the options that matter here:
    whether [options.accessToken] is given, on which statuses
    [options.heartbeatCallback] throws (the default [noop] never does), and
    [options.reconnectAfterMs].  The socket has not connected yet. *)
Definition new_RealtimeClient (hasAccessToken : bool)
    (callbackThrows : HeartbeatStatus -> bool)
    (reconnect : option (nat -> Z)) : RealtimeClient :=
  {| socketState := Closed;
     accessTokenValue := None;
     channels := [];
     pendingHeartbeatRef := None;
     heartbeatCallbackThrows := callbackThrows;
     ref := 0;
     reconnectTries := 0;
     reconnectAfterMs := default default_reconnectAfterMs reconnect;
     accessToken := hasAccessToken;
     _wasManualDisconnect := false;
     _authPromise := None;
     promises := [];
     awaiting := [];
     timeouts := [];
     allocated := 0;
     effects := [] |}.

(** ** [disconnect] and [push] *)

Definition disconnect (code : option Z) (reason : option string) : M unit :=
  closing <- gets isDisconnecting ;;
  if closing then ret tt
  else emit (SocketDisconnect code reason).

Definition push (data : RealtimeMessage) : M unit := emit (SocketPush data).

(** ** The channel registry *)

(** Modelled from the spec: the constructor of [RealtimeChannel], whose file
    [RealtimeChannel.ts] is not part of the sources at hand.  A channel
    session has a topic, its configuration and a lifecycle state; a new one
    has not joined and carries no token in its join payload. *)
Definition new_RealtimeChannel (id : nat) (t : string) (opts : nat)
    : RealtimeChannel :=
  {| chan_id := id; topic := t; params := opts;
     joinedOnce := false; joinPayload := None |}.

Definition getChannels : M (list RealtimeChannel) := gets channels.

Definition channel (t : string) (opts : nat) : M RealtimeChannel :=
  let realtimeTopic := "realtime:" +:+ t in
  chs <- getChannels ;;
  match List.find (fun c => String.eqb (topic c) realtimeTopic) chs with
  | None =>
      id <- gets allocated ;;
      modify (set_allocated (S id)) ;;
      let chan := new_RealtimeChannel id ("realtime:" +:+ t) opts in
      modify (fun c => set_channels (channels c ++ [chan]) c) ;;
      ret chan
  | Some exists_ => ret exists_
  end.

Definition _remove (ch : RealtimeChannel) : M unit :=
  modify (fun c =>
    set_channels
      (List.filter (fun c' => negb (String.eqb (topic c') (topic ch)))
                   (channels c)) c).

(** ** Auth *)

(** [channel.updateJoinPayload(payload)]: the method of [RealtimeChannel]
    is taken to forward to [PhoenixChannel.updateJoinPayload], which hands
    the payload to the Phoenix channel for its next joins. *)
Definition updateJoinPayload (ch : RealtimeChannel) (payload : JoinPayload)
    : M RealtimeChannel :=
  emit (UpdateJoinPayload (chan_id ch) payload) ;;
  ret {| chan_id := chan_id ch; topic := topic ch; params := params ch;
         joinedOnce := joinedOnce ch; joinPayload := Some payload |}.

(** [PhoenixChannel.push]: the transport's push throws before the channel
    has joined, and the adapter rethrows.  [true] when the push went out,
    [false] when it threw. *)
Definition phoenixChannel_push (ch : RealtimeChannel) (event : string)
    (access_token : option string) : M bool :=
  if joinedOnce ch
  then emit (ChannelPush (chan_id ch) event access_token) ;; ret true
  else ret false.

(** The callback [_performAuth] gives to [this.channels.forEach]. *)
Definition auth_channel (tokenToSend : option string) (ch : RealtimeChannel)
    : M RealtimeChannel :=
  ch' <- match tokenToSend with
         | Some t =>
             if truthy tokenToSend
             then updateJoinPayload ch
                    {| jp_access_token := t; jp_version := DEFAULT_VERSION |}
             else ret ch
         | None => ret ch
         end ;;
  pushed <- phoenixChannel_push ch' CHANNEL_EVENTS_access_token tokenToSend ;;
  (if pushed then log "auth" "pushed access token"
   else log "auth" "error pushing access token") ;;
  ret ch'.

(** [forEach] over channel objects that the callback may change in place. *)
Fixpoint forEach (f : RealtimeChannel -> M RealtimeChannel)
    (chs : list RealtimeChannel) : M (list RealtimeChannel) :=
  match chs with
  | [] => ret []
  | ch :: rest =>
      ch' <- f ch ;;
      rest' <- forEach f rest ;;
      ret (ch' :: rest')
  end.

(** [_performAuth] from the point where [tokenToSend] is known. *)
Definition propagate (tokenToSend : option string) : M unit :=
  log "auth" "performing auth" ;;
  current <- gets accessTokenValue ;;
  if loose_neq current tokenToSend then
    modify (set_accessTokenValue tokenToSend) ;;
    chs <- gets channels ;;
    chs' <- forEach (auth_channel tokenToSend) chs ;;
    modify (set_channels chs')
  else ret tt.

Definition new_promise (st : PromiseState) : M nat :=
  ps <- gets promises ;;
  modify (set_promises (ps ++ [st])) ;;
  ret (length ps).

Definition settle (p : nat) (r : Settlement) : M unit :=
  modify (fun c => set_promises (<[p := Settled r]> (promises c)) c).

(** [_performAuth] up to its first suspension: it runs to its end unless it
    has to wait for the [accessToken] callback. *)
Definition _performAuth (token : option string) : M nat :=
  if truthy token then
    propagate token ;; new_promise (Settled Fulfilled)
  else
    provider <- gets accessToken ;;
    if provider then
      emit AccessTokenCall ;; new_promise AwaitingAccessToken
    else
      tokenToSend <- gets accessTokenValue ;;
      propagate tokenToSend ;; new_promise (Settled Fulfilled).

(** The promise of the [accessToken] callback settles, and [_performAuth]
    goes on from its [await]. *)
Definition accessToken_settles (p : nat) (o : ProviderOutcome) : M unit :=
  ps <- gets promises ;;
  match ps !! p with
  | Some AwaitingAccessToken =>
      match o with
      | Resolves tokenToSend => propagate tokenToSend ;; settle p Fulfilled
      | Rejects => settle p Rejected
      end
  | _ => ret tt
  end.

(** [setAuth] up to [await this._authPromise].  [caller] is the context when
    the call comes through [_setAuthSafely]. *)
Definition setAuth (token : option string) (caller : option string) : M nat :=
  p <- _performAuth token ;;
  modify (set_authPromise (Some p)) ;;
  modify (fun c => set_awaiting (awaiting c ++ [(p, K_setAuth caller)]) c) ;;
  ret p.

Definition _setAuthSafely (context : string) : M unit :=
  setAuth None (Some context) ;; ret tt.

(** ** Removing channels *)

(** Modelled from the spec: [RealtimeChannel.unsubscribe], whose file
    [RealtimeChannel.ts] is not part of the sources at hand, up to the point
    where it waits.  The spec has a session unsubscribed by a leave on the
    transport whose acknowledgment is awaited: the leave is sent, and the
    promise the call returns waits for the reply. *)
Definition unsubscribe (ch : RealtimeChannel) : M nat :=
  emit (ChannelLeave (chan_id ch)) ;;
  new_promise (AwaitingLeave ch).

(** Modelled from the spec: the rest of [RealtimeChannel.unsubscribe], run
    when the transport has answered the leave or the leave has timed out.
    The session is "removed explicitly or implicitly when the application
    unsubscribes", "regardless of leave outcome": it leaves the registry
    through the client's [_remove], and the promise resolves with the
    status. *)
Definition leave_replied (p : nat) (status : RealtimeRemoveChannelResponse)
    : M unit :=
  ps <- gets promises ;;
  match ps !! p with
  | Some (AwaitingLeave ch) =>
      _remove ch ;;
      modify (fun c => set_promises (<[p := LeaveReplied status]> (promises c)) c)
  | _ => ret tt
  end.

(** [removeChannel] up to [await channel.unsubscribe()]; what follows the
    [await] is in [resume]. *)
Definition removeChannel (ch : RealtimeChannel) : M nat :=
  p <- unsubscribe ch ;;
  modify (fun c => set_awaiting (awaiting c ++ [(p, K_removeChannel)]) c) ;;
  ret p.

(** [this.channels.map((channel) => channel.unsubscribe())]: [map] walks the
    array as it is when the call is made and calls [unsubscribe] on each
    element at once, so all the leaves are sent before any reply is in. *)
Fixpoint unsubscribe_all (chs : list RealtimeChannel) : M (list nat) :=
  match chs with
  | [] => ret []
  | ch :: rest =>
      p <- unsubscribe ch ;;
      ps <- unsubscribe_all rest ;;
      ret (p :: ps)
  end.

(** [removeAllChannels] up to [await Promise.all(...)]; what follows the
    [await] is in [resume]. *)
Definition removeAllChannels : M nat :=
  chs <- gets channels ;;
  ps <- unsubscribe_all chs ;;
  all <- new_promise (AllOf ps) ;;
  modify (fun c => set_awaiting (awaiting c ++ [(all, K_removeAllChannels)]) c) ;;
  ret all.

(** The value of [Promise.all] over the promises [qs]: the statuses in the
    order of [qs] once every one of them has resolved, nothing before. *)
Fixpoint leave_statuses (ps : list PromiseState) (qs : list nat)
    : option (list RealtimeRemoveChannelResponse) :=
  match qs with
  | [] => Some []
  | q :: rest =>
      match ps !! q, leave_statuses ps rest with
      | Some (LeaveReplied status), Some statuses => Some (status :: statuses)
      | _, _ => None
      end
  end.

(** ** [connect] *)

Definition connect : M unit :=
  connecting <- gets isConnecting ;;
  closing <- gets isDisconnecting ;;
  connected <- gets isConnected ;;
  if connecting || closing || connected then ret tt
  else
    provider <- gets accessToken ;;
    inflight <- gets _authPromise ;;
    when (provider && bool_decide (inflight = None)) (_setAuthSafely "connect") ;;
    emit SocketConnect.

(** A function suspended on a settled promise goes on, in the state the
    client is in at that time.  [setAuth] runs its [finally] block, and a
    rejection reaches the [catch] of [_setAuthSafely] or the caller; the
    reconnection callback connects if there is still no connection, and a
    rejection ends it.  [removeChannel] has its status, disconnects if the
    registry is empty now, and returns the status.  [removeAllChannels]
    goes on only when every leave has been answered: it empties the
    registry, disconnects and returns the statuses.  A function whose
    promise has not settled stays suspended. *)
Definition resume (i : nat) : M unit :=
  aw <- gets awaiting ;;
  ps <- gets promises ;;
  match aw !! i with
  | Some (p, k) =>
      match ps !! p with
      | Some (Settled r) =>
          match k with
          | K_setAuth caller =>
              modify (set_awaiting (delete i aw)) ;;
              modify (set_authPromise None) ;;
              match r, caller with
              | Fulfilled, _ => ret tt
              | Rejected, Some context =>
                  log "error" ("error setting auth in " +:+ context)
              | Rejected, None => emit (PromiseRejected k)
              end
          | K_reconnect =>
              modify (set_awaiting (delete i aw)) ;;
              match r with
              | Fulfilled =>
                  connected <- gets isConnected ;;
                  if connected then ret tt else connect
              | Rejected => emit (PromiseRejected k)
              end
          | _ => ret tt
          end
      | Some (LeaveReplied status) =>
          match k with
          | K_removeChannel =>
              modify (set_awaiting (delete i aw)) ;;
              chs <- gets channels ;;
              when (length chs =? 0) (disconnect None None) ;;
              emit (RemoveChannelReturns status)
          | _ => ret tt
          end
      | Some (AllOf qs) =>
          match k, leave_statuses ps qs with
          | K_removeAllChannels, Some values_1 =>
              modify (set_awaiting (delete i aw)) ;;
              modify (set_channels []) ;;
              disconnect None None ;;
              emit (RemoveAllChannelsReturns values_1)
          | _, _ => ret tt
          end
      | _ => ret tt
      end
  | None => ret tt
  end.

(** ** The heartbeat *)

(** [try { this.heartbeatCallback(status) } catch (e) { this.log(...) }]. *)
Definition reportHeartbeat (status : HeartbeatStatus) : M unit :=
  emit (HeartbeatCallback status) ;;
  throws <- gets (fun c => heartbeatCallbackThrows c status) ;;
  when throws (log "error" "error in heartbeat callback").

Definition sendHeartbeat : M unit :=
  connected <- gets isConnected ;;
  if negb connected then reportHeartbeat HB_disconnected
  else
    pending <- gets pendingHeartbeatRef ;;
    if truthy pending then
      modify (set_pendingHeartbeatRef None) ;;
      log "transport" "heartbeat timeout. Attempting to re-establish connection" ;;
      reportHeartbeat HB_timeout ;;
      modify (set_wasManualDisconnect false) ;;
      emit (SocketDisconnect (Some WS_CLOSE_NORMAL) (Some "heartbeat timeout")) ;;
      setTimeout T_heartbeat_fallback HEARTBEAT_TIMEOUT_FALLBACK
    else
      r <- _makeRef ;;
      modify (set_pendingHeartbeatRef (Some r)) ;;
      push {| msg_topic := "phoenix"; msg_event := "heartbeat";
              msg_payload := []; msg_ref := r; msg_join_ref := None |} ;;
      reportHeartbeat HB_sent ;;
      _setAuthSafely "heartbeat".

Definition onHeartbeat (callbackThrows : HeartbeatStatus -> bool) : M unit :=
  modify (set_heartbeatCallbackThrows callbackThrows).

(** ** Timers *)

Definition is_reconnect_tick (t : TimerTask * Z) : bool :=
  match t.1 with T_reconnect_tick => true | _ => false end.

(** [Timer.scheduleTimeout] of the transport library: the pending timeout of
    the timer, if any, is cleared and a new one is set after
    [timerCalc(tries + 1)]. *)
Definition scheduleTimeout : M unit :=
  tries <- gets reconnectTries ;;
  calc <- gets reconnectAfterMs ;;
  emit (TimerSchedule (calc (S tries))) ;;
  modify (fun c =>
    set_timeouts
      (List.filter (fun t => negb (is_reconnect_tick t)) (timeouts c)
       ++ [(T_reconnect_tick, calc (S tries))]) c).

Definition run_task (task : TimerTask) : M unit :=
  match task with
  | T_heartbeat_fallback =>
      connected <- gets isConnected ;;
      if connected then ret tt else scheduleTimeout
  | T_reconnect_tick =>
      modify (fun c => set_reconnectTries (S (reconnectTries c)) c) ;;
      setTimeout T_reconnect_settle RECONNECT_DELAY
  | T_reconnect_settle =>
      inflight <- gets _authPromise ;;
      match inflight with
      | Some p =>
          modify (fun c => set_awaiting (awaiting c ++ [(p, K_reconnect)]) c)
      | None =>
          connected <- gets isConnected ;;
          if connected then ret tt else connect
      end
  end.

(** The [i]-th pending timeout fires. *)
Definition fire (i : nat) : M unit :=
  ts <- gets timeouts ;;
  match ts !! i with
  | Some (task, _) => modify (set_timeouts (delete i ts)) ;; run_task task
  | None => ret tt
  end.

(** ** Runs of the event loop *)

(** One turn of the event loop: a call by the application or a step of the
    environment. *)
Inductive Step :=
| Call_connect
| Call_disconnect (code : option Z) (reason : option string)
| Call_channel (t : string) (opts : nat)
| Call_removeChannel (ch : RealtimeChannel)
| Call_removeAllChannels
| Call_setAuth (token : option string)
| Call_sendHeartbeat
| Call_onHeartbeat (callbackThrows : HeartbeatStatus -> bool)
| Env_socket (st : CONNECTION_STATE)
| Env_reply (r : string)
| Env_joined (id : nat)
| Env_leave (p : nat) (status : RealtimeRemoveChannelResponse)
| Env_accessToken (p : nat) (o : ProviderOutcome)
| Env_resume (i : nat)
| Env_timeout (i : nat).

(** Modelled from the spec: the routing of incoming messages, which is not
    part of the sources at hand.  "The pending ref is cleared whenever any
    reply message arrives bearing that ref." *)
Definition heartbeat_reply (r : string) : M unit :=
  pending <- gets pendingHeartbeatRef ;;
  when (bool_decide (pending = Some r)) (modify (set_pendingHeartbeatRef None)).

(** The transport acknowledges the join of a channel: from then on the
    Phoenix channel accepts pushes. *)
Definition channel_joined (id : nat) : M unit :=
  modify (fun c =>
    set_channels
      (map (fun ch =>
              if (chan_id ch =? id)%nat
              then {| chan_id := chan_id ch; topic := topic ch;
                      params := params ch; joinedOnce := true;
                      joinPayload := joinPayload ch |}
              else ch) (channels c)) c).

Definition step (st : Step) : M unit :=
  match st with
  | Call_connect => connect
  | Call_disconnect code reason => disconnect code reason
  | Call_channel t opts => channel t opts ;; ret tt
  | Call_removeChannel ch => removeChannel ch ;; ret tt
  | Call_removeAllChannels => removeAllChannels ;; ret tt
  | Call_setAuth token => setAuth token None ;; ret tt
  | Call_sendHeartbeat => sendHeartbeat
  | Call_onHeartbeat cb => onHeartbeat cb
  | Env_socket s => modify (set_socketState s)
  | Env_reply r => heartbeat_reply r
  | Env_joined id => channel_joined id
  | Env_leave p status => leave_replied p status
  | Env_accessToken p o => accessToken_settles p o
  | Env_resume i => resume i
  | Env_timeout i => fire i
  end.

Definition run (steps : list Step) (c : RealtimeClient) : RealtimeClient :=
  fold_left (fun c st => exec (step st) c) steps c.

(** The states of a client created by the constructor. *)
Definition reachable (c : RealtimeClient) : Prop :=
  exists hasAccessToken callbackThrows reconnect steps,
    c = run steps (new_RealtimeClient hasAccessToken callbackThrows reconnect).

End Client.

(** ** Runs of the ref generator *)

(** The results of [n] calls of [_makeRef] in a row. *)
Fixpoint makeRefs (n : nat) : M (list string) :=
  match n with
  | O => ret []
  | S k => r <- _makeRef ;; rs <- makeRefs k ;; ret (r :: rs)
  end.

(** The counter after one more call, as the code leaves it. *)
Definition next_ref (r : Z) : Z :=
  if (js_succ r =? r)%Z then 0%Z else js_succ r.

Definition is_digit (a : ascii) : bool :=
  let n := Ascii.nat_of_ascii a in (48 <=? n)%nat && (n <=? 57)%nat.

Fixpoint all_digits (s : string) : bool :=
  match s with
  | EmptyString => true
  | String a rest => is_digit a && all_digits rest
  end.

(** A string of decimal digits: no sign, no [NaN], no [Infinity]. *)
Definition numeric (s : string) : bool :=
  negb (String.eqb s "") && all_digits s.

(** ** Channel options: [translateRealtimeOptionsToChannelParams]

    The function works on the object its caller passed, so objects live on a
    heap and are named by their address. *)

#[local] Set Warnings "-register-all".

Inductive JsValue :=
| V_null
| V_bool (b : bool)
| V_string (s : string)
| V_object (fields : list (string * JsValue)).

(** What sits at an address: a [RealtimeChannelOptions] object, whose
    [config] property is undefined or the address of a config object, or a
    config object with its own properties. *)
Inductive Object :=
| O_options (config : option nat)
| O_config (entries : gmap string JsValue).

(** The literal spread first into the new config. *)
Definition default_config : gmap string JsValue :=
  <["broadcast" := V_object [("ack", V_bool false); ("self", V_bool false)]]>
  (<["presence" := V_object [("key", V_string ""); ("enabled", V_bool false)]]>
  (<["private" := V_bool false]> ∅)).

(** The own properties that [...options.config] spreads: none when the
    property is undefined. *)
Definition spread_config (h : gmap nat Object) (config : option nat)
    : gmap string JsValue :=
  match config with
  | Some a => match h !! a with
              | Some (O_config entries) => entries
              | _ => ∅
              end
  | None => ∅
  end.

(** [{ ...a, ...b }]: the properties of [b] win. *)
Definition object_spread (a b : gmap string JsValue) : gmap string JsValue :=
  b ∪ a.

(** The function returns the address it was given, on the changed heap.
    Writing a property of something that is not an object throws: [None]. *)
Definition translateRealtimeOptionsToChannelParams (options : nat)
    (h : gmap nat Object) : option (nat * gmap nat Object) :=
  match h !! options with
  | Some (O_options config) =>
      let merged := object_spread default_config (spread_config h config) in
      let a := fresh (dom h) in
      Some (options, <[options := O_options (Some a)]> (<[a := O_config merged]> h))
  | _ => None
  end.

(** A [PhoenixChannel]: the topic and the params its Phoenix channel was
    created with. *)
Record PhoenixChannel := mkPhoenixChannel {
  pc_topic : string;
  pc_params : nat
}.

(** The constructor of [PhoenixChannel]. *)
Definition new_PhoenixChannel (t : string) (params : nat) (h : gmap nat Object)
    : option (PhoenixChannel * gmap nat Object) :=
  match translateRealtimeOptionsToChannelParams params h with
  | Some (phoenixParams, h') =>
      Some ({| pc_topic := t; pc_params := phoenixParams |}, h')
  | None => None
  end.

(** ** One round of the auth loop, written out *)

Section AuthRound.
Context {K : Constants}.

(** The channel as [auth_channel] leaves it. *)
Definition auth_channel_result (tokenToSend : option string)
    (ch : RealtimeChannel) : RealtimeChannel :=
  match tokenToSend with
  | Some t =>
      if truthy tokenToSend
      then {| chan_id := chan_id ch; topic := topic ch; params := params ch;
              joinedOnce := joinedOnce ch;
              joinPayload :=
                Some {| jp_access_token := t;
                        jp_version := DEFAULT_VERSION |} |}
      else ch
  | None => ch
  end.

(** The calls [auth_channel] makes for one channel. *)
Definition auth_channel_effects (tokenToSend : option string)
    (ch : RealtimeChannel) : list Effect :=
  match tokenToSend with
  | Some t =>
      if truthy tokenToSend
      then [UpdateJoinPayload (chan_id ch)
              {| jp_access_token := t; jp_version := DEFAULT_VERSION |}]
      else []
  | None => []
  end ++
  (if joinedOnce ch
   then [ChannelPush (chan_id ch) CHANNEL_EVENTS_access_token tokenToSend;
         SocketLog "auth" "pushed access token"]
   else [SocketLog "auth" "error pushing access token"]).

End AuthRound.

(** How often an effect satisfying [f] occurs. *)
Definition count_effects (f : Effect -> bool) (c : RealtimeClient) : nat :=
  length (List.filter f (effects c)).

Definition is_AccessTokenCall (e : Effect) : bool :=
  match e with AccessTokenCall => true | _ => false end.

Definition is_ChannelPush (e : Effect) : bool :=
  match e with ChannelPush _ _ _ => true | _ => false end.

(** A push on the channel [id]. *)
Definition is_push_on (id : nat) (e : Effect) : bool :=
  match e with ChannelPush chan _ _ => (chan =? id)%nat | _ => false end.

Definition is_UpdateJoinPayload (e : Effect) : bool :=
  match e with UpdateJoinPayload _ _ => true | _ => false end.

(** ** Invariants of method bodies *)

(** [m] keeps [P]: run on a client where [P] holds, it leaves one where
    [P] holds. *)
Definition maintains {A} (P : RealtimeClient -> Prop) (m : M A) : Prop :=
  forall c, P c -> P (exec m c).

Definition manual_flag_unset (c : RealtimeClient) : Prop :=
  _wasManualDisconnect c = false.

Definition unique_topics (c : RealtimeClient) : Prop :=
  NoDup (map topic (channels c)).

(** The channels of the registry are distinct objects, created one after
    the other. *)
Definition unique_ids (c : RealtimeClient) : Prop :=
  NoDup (map chan_id (channels c))
  /\ forall ch, ch ∈ channels c -> chan_id ch < allocated c.

(** The counter stays where doubles are exact. *)
Definition ref_in_range (c : RealtimeClient) : Prop :=
  (0 <= ref c <= MAX_EXACT)%Z.

(** A pending heartbeat ref is never the empty string, so [if (ref)] tells
    whether one is set. *)
Definition pending_ref_truthy (c : RealtimeClient) : Prop :=
  pendingHeartbeatRef c = None \/ truthy (pendingHeartbeatRef c) = true.

(** ** Construction from options: the constructor and [_initializeOptions] *)

Inductive LogLevel := L_info | L_warn | L_error.

(** [this.logLevel as string]. *)
Definition LogLevel_string (l : LogLevel) : string :=
  match l with
  | L_info => "info"
  | L_warn => "warn"
  | L_error => "error"
  end.

(** The options the constructor reads.  A property that is absent is
    [None]; the values of [params] are strings. *)
Record RealtimeClientOptions := mkOptions {
  o_timeout : option Z;
  o_heartbeatIntervalMs : option Z;
  o_reconnectAfterMs : option (nat -> Z);
  o_params : option (gmap string string);
  o_log_level : option LogLevel;
  o_logLevel : option LogLevel;
  o_worker : option bool;
  o_workerUrl : option string;
  o_accessToken : bool;
  o_heartbeatCallback : option (HeartbeatStatus -> bool)
}.

(** Where the code runs: [typeof window] and [window.Worker]. *)
Inductive Window := NoWindow | WindowWithWorker | WindowWithoutWorker.

Inductive ConstructorError :=
| API_key_is_required
| Web_Worker_is_not_supported.

(** The fields [_initializeOptions] and the constructor set that the
    event-loop model above does not carry. *)
Record Settings := mkSettings {
  s_apiKey : option string;
  s_params : gmap string string;
  s_timeout : Z;
  s_heartbeatIntervalMs : Z;
  s_logLevel : option LogLevel;
  s_worker : bool;
  s_workerUrl : option string
}.

(** [a || b] on two optional log levels: a level is a non-empty string. *)
Definition or_level (a b : option LogLevel) : option LogLevel :=
  match a with
  | Some l => Some l
  | None => b
  end.

Section Constructor.
(** [DEFAULT_TIMEOUT] of [./lib/constants]. *)
Variable DEFAULT_TIMEOUT : Z.

(** [_initializeOptions], on the fields as the class declares them
    ([apiKey] is set by the constructor before the call). *)
Definition _initializeOptions (w : Window) (apiKey : option string)
    (options : option RealtimeClientOptions) : ConstructorError + Settings :=
  let timeout := default DEFAULT_TIMEOUT (options ≫= o_timeout) in
  let heartbeatIntervalMs :=
    default HEARTBEAT_INTERVAL (options ≫= o_heartbeatIntervalMs) in
  let worker := default false (options ≫= o_worker) in
  let params := default ∅ (options ≫= o_params) in
  let level := or_level (options ≫= o_logLevel) (options ≫= o_log_level) in
  let params :=
    match level with
    | Some l => <["log_level" := LogLevel_string l]> params
    | None => params
    end in
  if worker then
    match w with
    | WindowWithoutWorker => inl Web_Worker_is_not_supported
    | _ =>
        inr {| s_apiKey := apiKey; s_params := params; s_timeout := timeout;
               s_heartbeatIntervalMs := heartbeatIntervalMs;
               s_logLevel := level; s_worker := worker;
               s_workerUrl := options ≫= o_workerUrl |}
    end
  else
    inr {| s_apiKey := apiKey; s_params := params; s_timeout := timeout;
           s_heartbeatIntervalMs := heartbeatIntervalMs;
           s_logLevel := level; s_worker := worker;
           s_workerUrl := None |}.

(** The constructor: the settings and the client it leaves, or the error
    it throws. *)
Definition constructor (w : Window) (options : option RealtimeClientOptions)
    : ConstructorError + (Settings * RealtimeClient) :=
  let apikey :=
    (options ≫= o_params)
      ≫= (fun params : gmap string string => params !! "apikey") in
  if truthy apikey then
    match _initializeOptions w apikey options with
    | inl e => inl e
    | inr settings =>
        inr (settings,
             new_RealtimeClient
               (default false (o_accessToken <$> options))
               (default (fun _ => false) (options ≫= o_heartbeatCallback))
               (options ≫= o_reconnectAfterMs))
    end
  else inl API_key_is_required.

End Constructor.

(** Sample options, for running the constructor on an example. *)
Definition sample_options : RealtimeClientOptions :=
  {| o_timeout := None;
     o_heartbeatIntervalMs := Some 0%Z;
     o_reconnectAfterMs := None;
     o_params := Some (<["apikey" := "k"]> (<["log_level" := "warn"]> ∅));
     o_log_level := Some L_info;
     o_logLevel := Some L_error;
     o_worker := None;
     o_workerUrl := Some "worker.js";
     o_accessToken := false;
     o_heartbeatCallback := None |}.

(** ** The presence relay of [RealtimePresence.ts] *)

Inductive REALTIME_PRESENCE_LISTEN_EVENTS := SYNC | JOIN | LEAVE.

Section Presence.
(** The presence records, which the relay does not look into. *)
Variable Presence : Type.

(** What the upstream presence feed calls: the callbacks given to
    [onJoin], [onLeave] and [onSync], with their arguments. *)
Inductive PresenceCallback :=
| OnJoin (key : string) (currentPresences newPresences : list Presence)
| OnLeave (key : string) (currentPresences leftPresences : list Presence)
| OnSync.

(** The payload of a ['presence'] event of the channel; a property that
    the object literal does not have is [None]. *)
Record PresencePayload := mkPresencePayload {
  pp_event : REALTIME_PRESENCE_LISTEN_EVENTS;
  pp_key : option string;
  pp_currentPresences : option (list Presence);
  pp_newPresences : option (list Presence);
  pp_leftPresences : option (list Presence)
}.

(** The call [this.channel._trigger(type, payload)] each callback makes. *)
Definition presence_trigger (cb : PresenceCallback) : string * PresencePayload :=
  match cb with
  | OnJoin key currentPresences newPresences =>
      ("presence",
       {| pp_event := JOIN; pp_key := Some key;
          pp_currentPresences := Some currentPresences;
          pp_newPresences := Some newPresences;
          pp_leftPresences := None |})
  | OnLeave key currentPresences leftPresences =>
      ("presence",
       {| pp_event := LEAVE; pp_key := Some key;
          pp_currentPresences := Some currentPresences;
          pp_newPresences := None;
          pp_leftPresences := Some leftPresences |})
  | OnSync =>
      ("presence",
       {| pp_event := SYNC; pp_key := None;
          pp_currentPresences := None;
          pp_newPresences := None;
          pp_leftPresences := None |})
  end.

End Presence.

(** ** Reading the trace of calls *)

(** The statuses the heartbeat callback was called with, in order. *)
Fixpoint heartbeat_reports (es : list Effect) : list HeartbeatStatus :=
  match es with
  | [] => []
  | HeartbeatCallback st :: rest => st :: heartbeat_reports rest
  | _ :: rest => heartbeat_reports rest
  end.

Definition is_SocketPush (e : Effect) : bool :=
  match e with SocketPush _ => true | _ => false end.

Definition is_SocketDisconnect (e : Effect) : bool :=
  match e with SocketDisconnect _ _ => true | _ => false end.

Definition is_SocketConnect (e : Effect) : bool :=
  match e with SocketConnect => true | _ => false end.

(** The log line written when the heartbeat callback throws. *)
Definition is_callback_error (e : Effect) : bool :=
  match e with
  | SocketLog kind msg =>
      String.eqb kind "error" && String.eqb msg "error in heartbeat callback"
  | _ => false
  end.

(** The client with the heartbeat callback and the log lines of its
    failures left out. *)
Definition without_callback (c : RealtimeClient) : RealtimeClient :=
  set_effects (List.filter (fun e => negb (is_callback_error e)) (effects c))
    (set_heartbeatCallbackThrows (fun _ => false) c).

(** The counter is in range and a pending heartbeat ref is a decimal
    number. *)
Definition refs_numeric (c : RealtimeClient) : Prop :=
  ref_in_range c
  /\ (pendingHeartbeatRef c = None
      \/ exists r, pendingHeartbeatRef c = Some r /\ numeric r = true).

(** The status one call of [sendHeartbeat] reports. *)
Definition heartbeat_status (c : RealtimeClient) : HeartbeatStatus :=
  if negb (isConnected c) then HB_disconnected
  else if truthy (pendingHeartbeatRef c) then HB_timeout
  else HB_sent.

(** * Properties *)

(** ** The ref generator *)

(** The rounding of doubles at the edge of the exact range, on Rocq's
    binary64 floats: [js_succ] agrees with it there. *)
Example double_succ_below_edge :
  (PrimFloat.eqb (9007199254740991 + 1) 9007199254740992)%float = true
  /\ js_succ 9007199254740991 = 9007199254740992%Z.
Proof. split; reflexivity. Qed.

Example double_succ_at_edge :
  (PrimFloat.eqb (9007199254740992 + 1) 9007199254740992)%float = true
  /\ js_succ 9007199254740992 = 9007199254740992%Z.
Proof. split; reflexivity. Qed.

Lemma MAX_EXACT_pos : (0 < MAX_EXACT)%Z.
Proof. reflexivity. Qed.

Lemma next_ref_cases r :
  (0 <= r <= MAX_EXACT)%Z ->
  next_ref r = if (r <? MAX_EXACT)%Z then (r + 1)%Z else 0%Z.
Proof.
  intros Hr. unfold next_ref, js_succ.
  destruct (r <? MAX_EXACT)%Z eqn:E.
  - destruct (r + 1 =? r)%Z eqn:E'; [lia | reflexivity].
  - now rewrite Z.eqb_refl.
Qed.

Lemma next_ref_range r :
  (0 <= r <= MAX_EXACT)%Z -> (0 <= next_ref r <= MAX_EXACT)%Z.
Proof.
  intros Hr. rewrite next_ref_cases by assumption.
  pose proof MAX_EXACT_pos.
  destruct (r <? MAX_EXACT)%Z eqn:E; lia.
Qed.

Lemma next_ref_neq r : (0 <= r <= MAX_EXACT)%Z -> next_ref r <> r.
Proof.
  intros Hr. rewrite next_ref_cases by assumption.
  pose proof MAX_EXACT_pos.
  destruct (r <? MAX_EXACT)%Z eqn:E; lia.
Qed.

Lemma next_ref_mod i :
  (0 <= i)%Z ->
  next_ref (i mod (MAX_EXACT + 1)) = ((i + 1) mod (MAX_EXACT + 1))%Z.
Proof.
  intros Hi. pose proof MAX_EXACT_pos as Hpos.
  pose proof (Z.mod_pos_bound i (MAX_EXACT + 1) ltac:(lia)) as Hq.
  rewrite next_ref_cases by lia.
  pose proof (Z.div_mod i (MAX_EXACT + 1) ltac:(lia)) as Hdm.
  destruct (i mod (MAX_EXACT + 1) <? MAX_EXACT)%Z eqn:E.
  - apply (Z.mod_unique _ _ (i / (MAX_EXACT + 1))); lia.
  - apply (Z.mod_unique _ _ (i / (MAX_EXACT + 1) + 1)); lia.
Qed.

(** One call, on a counter in the exact range. *)
Lemma _makeRef_run c :
  _makeRef c = (toString (next_ref (ref c)), set_ref (next_ref (ref c)) c).
Proof.
  unfold _makeRef, next_ref, bind, gets, modify, ret.
  destruct (js_succ (ref c) =? ref c)%Z; reflexivity.
Qed.

Lemma pretty_N_char_digit x : is_digit (pretty_N_char x) = true.
Proof. unfold pretty_N_char. repeat case_match; reflexivity. Qed.

Lemma pretty_N_go_digits x s :
  all_digits s = true -> all_digits (pretty_N_go x s) = true.
Proof.
  revert s. induction (N.lt_wf_0 x) as [x _ IH]; intros s Hs.
  destruct (decide (x = 0)%N) as [->|Hx].
  - now rewrite pretty_N_go_0.
  - rewrite pretty_N_go_step by lia. apply IH.
    + apply N.div_lt; lia.
    + simpl. now rewrite pretty_N_char_digit, Hs.
Qed.

Lemma pretty_N_go_nonempty x s : s <> "" -> pretty_N_go x s <> "".
Proof.
  revert s. induction (N.lt_wf_0 x) as [x _ IH]; intros s Hs.
  destruct (decide (x = 0)%N) as [->|Hx].
  - now rewrite pretty_N_go_0.
  - rewrite pretty_N_go_step by lia. apply IH.
    + apply N.div_lt; lia.
    + discriminate.
Qed.

Lemma toString_numeric r : (0 <= r)%Z -> numeric (toString r) = true.
Proof.
  intros Hr. destruct r as [|p|p]; [reflexivity | | lia].
  unfold toString, pretty, pretty_Z, pretty, pretty_positive, pretty, pretty_N.
  destruct (decide (N.pos p = 0%N)) as [E|_]; [discriminate E|].
  unfold numeric. apply andb_true_intro. split.
  - apply negb_true_iff, String.eqb_neq.
    rewrite pretty_N_go_step by lia.
    apply pretty_N_go_nonempty. discriminate.
  - now apply pretty_N_go_digits.
Qed.

Lemma toString_inj a b : toString a = toString b -> a = b.
Proof. apply pretty_Z_inj. Qed.

Lemma iter_next_ref_range i r :
  (0 <= r <= MAX_EXACT)%Z -> (0 <= Nat.iter i next_ref r <= MAX_EXACT)%Z.
Proof.
  intros Hr. induction i as [|i IH]; [exact Hr|].
  simpl. now apply next_ref_range.
Qed.

Lemma iter_next_ref_closed i :
  Nat.iter i next_ref 0%Z = (Z.of_nat i mod (MAX_EXACT + 1))%Z.
Proof.
  induction i as [|i IH]; [reflexivity|].
  simpl. rewrite IH, next_ref_mod by lia.
  f_equal. lia.
Qed.

Lemma makeRefs_ref n c :
  ref (exec (makeRefs n) c) = Nat.iter n next_ref (ref c).
Proof.
  revert c. induction n as [|n IH]; intros c; [reflexivity|].
  unfold exec in *. simpl. unfold bind at 1. rewrite _makeRef_run.
  unfold bind, ret.
  specialize (IH (set_ref (next_ref (ref c)) c)).
  destruct (makeRefs n (set_ref (next_ref (ref c)) c)) as [rs c'].
  simpl in *. rewrite IH. simpl. now rewrite <- Nat.iter_succ_r.
Qed.

Lemma makeRefs_length n c : length (eval (makeRefs n) c) = n.
Proof.
  revert c. induction n as [|n IH]; intros c; [reflexivity|].
  unfold eval in *. simpl. unfold bind at 1. rewrite _makeRef_run.
  unfold bind, ret.
  specialize (IH (set_ref (next_ref (ref c)) c)).
  destruct (makeRefs n (set_ref (next_ref (ref c)) c)) as [rs c'].
  simpl in *. now rewrite IH.
Qed.

Lemma makeRefs_lookup n c i :
  i < n ->
  eval (makeRefs n) c !! i = Some (toString (Nat.iter (S i) next_ref (ref c))).
Proof.
  revert c i. induction n as [|n IH]; intros c i Hi; [lia|].
  unfold eval in *. simpl makeRefs. unfold bind at 1. rewrite _makeRef_run.
  unfold bind, ret.
  specialize (IH (set_ref (next_ref (ref c)) c)).
  destruct (makeRefs n (set_ref (next_ref (ref c)) c)) as [rs c'].
  destruct i as [|i]; [reflexivity|].
  simpl fst in *. simpl lookup. rewrite IH by lia.
  simpl ref. now rewrite <- Nat.iter_succ_r.
Qed.

(** C8.  From counter 0, the [i]-th call of [_makeRef] (counting from 0)
    returns the decimal form of [(i + 1) mod (2^53 + 1)]: every call adds
    one to the counter and returns its string form, except that on the
    counter whose increment leaves it unchanged the counter goes back to 0
    and ["0"] is returned.  No two consecutive results are equal, and every
    result is a non-empty string of decimal digits. *)
Theorem makeRef_sequence (c : RealtimeClient) (n : nat) :
  ref c = 0%Z ->
  let outs := eval (makeRefs n) c in
  length outs = n
  /\ (forall i, i < n ->
        let before := exec (makeRefs i) c in
        let after := exec _makeRef before in
        outs !! i = Some (eval _makeRef before)
        /\ eval _makeRef before = toString (ref after)
        /\ ref after = (if (ref before <? MAX_EXACT)%Z
                        then (ref before + 1)%Z else 0%Z)
        /\ (js_succ (ref before) = ref before ->
            ref after = 0%Z /\ eval _makeRef before = "0")
        /\ ref after = ((Z.of_nat i + 1) mod (MAX_EXACT + 1))%Z)
  /\ (forall i a b, outs !! i = Some a -> outs !! S i = Some b -> a <> b)
  /\ (forall r, r ∈ outs -> numeric r = true).
Proof.
  intros H0 outs. subst outs.
  assert (Hrange : forall i, (0 <= Nat.iter i next_ref (ref c) <= MAX_EXACT)%Z).
  { intros i. apply iter_next_ref_range. rewrite H0.
    pose proof MAX_EXACT_pos. lia. }
  split; [apply makeRefs_length|]. split; [|split].
  - intros i Hi before after.
    assert (Hb : ref before = Nat.iter i next_ref (ref c))
      by apply makeRefs_ref.
    assert (Ha : ref after = next_ref (ref before))
      by (subst after; unfold exec; now rewrite _makeRef_run).
    assert (He : eval _makeRef before = toString (next_ref (ref before)))
      by (unfold eval; now rewrite _makeRef_run).
    rewrite makeRefs_lookup by assumption.
    rewrite He, Ha, Hb.
    split; [reflexivity|]. split; [reflexivity|]. split; [|split; [intros H; split|]].
    + apply next_ref_cases, Hrange.
    + unfold next_ref at 1. rewrite H. now rewrite Z.eqb_refl.
    + unfold next_ref at 1. rewrite H. now rewrite Z.eqb_refl.
    + change (next_ref (Nat.iter i next_ref (ref c)))
        with (Nat.iter (S i) next_ref (ref c)).
      rewrite H0, iter_next_ref_closed. f_equal. lia.
  - intros i a b Ha Hb.
    assert (Hlt : S i < n).
    { apply lookup_lt_Some in Hb. now rewrite makeRefs_length in Hb. }
    rewrite makeRefs_lookup in Ha by lia.
    rewrite makeRefs_lookup in Hb by lia.
    injection Ha as <-. injection Hb as <-.
    intros Heq. apply toString_inj in Heq.
    symmetry in Heq. revert Heq. apply next_ref_neq, (Hrange (S i)).
  - intros r Hr. apply list_elem_of_lookup in Hr as [i Hi].
    assert (Hlt : i < n).
    { apply lookup_lt_Some in Hi. now rewrite makeRefs_length in Hi. }
    rewrite makeRefs_lookup in Hi by assumption.
    injection Hi as <-. apply toString_numeric, (Hrange (S i)).
Qed.

Lemma makeRef_sequence_witness :
  ref (new_RealtimeClient false (fun _ => false) None) = 0%Z
  /\ length (eval (makeRefs 3) (new_RealtimeClient false (fun _ => false) None)) = 3.
Proof.
  split; [reflexivity|].
  apply (makeRef_sequence (new_RealtimeClient false (fun _ => false) None) 3).
  reflexivity.
Defined.

(** ** Tactics for method bodies *)

Ltac js_unfold :=
  unfold reportHeartbeat, setTimeout, push, log, emit, when in *;
  unfold exec, eval, bind, gets, modify, ret in *.

(** Two clients with the same fields are the same client. *)
Lemma client_ext (c d : RealtimeClient) :
  socketState c = socketState d ->
  accessTokenValue c = accessTokenValue d ->
  channels c = channels d ->
  pendingHeartbeatRef c = pendingHeartbeatRef d ->
  heartbeatCallbackThrows c = heartbeatCallbackThrows d ->
  ref c = ref d ->
  reconnectTries c = reconnectTries d ->
  reconnectAfterMs c = reconnectAfterMs d ->
  accessToken c = accessToken d ->
  _wasManualDisconnect c = _wasManualDisconnect d ->
  _authPromise c = _authPromise d ->
  promises c = promises d ->
  awaiting c = awaiting d ->
  timeouts c = timeouts d ->
  allocated c = allocated d ->
  effects c = effects d ->
  c = d.
Proof. destruct c, d; simpl; intros; subst; reflexivity. Qed.

Ltac client_eq :=
  apply client_ext; simpl; rewrite <- ?app_assoc; try reflexivity.

(** ** The heartbeat *)

Lemma sendHeartbeat_disconnected_run `{Constants} (c : RealtimeClient) :
  isConnected c = false ->
  exec sendHeartbeat c =
    set_effects
      (effects c ++
       HeartbeatCallback HB_disconnected ::
       (if heartbeatCallbackThrows c HB_disconnected
        then [SocketLog "error" "error in heartbeat callback"] else [])) c.
Proof.
  intros Hconn. unfold sendHeartbeat. js_unfold. rewrite Hconn. simpl.
  destruct (heartbeatCallbackThrows c HB_disconnected); client_eq.
Qed.

(** C5.  On a client that is not connected, [sendHeartbeat] calls the
    heartbeat callback with ['disconnected'] (and logs if the callback
    throws) and does nothing else: nothing is pushed, and no field of the
    client changes; in particular the pending heartbeat ref, the ref counter
    and the stored token are as before. *)
Theorem sendHeartbeat_disconnected `{Constants} (c : RealtimeClient) :
  isConnected c = false ->
  let c' := exec sendHeartbeat c in
  let reported :=
    HeartbeatCallback HB_disconnected ::
    (if heartbeatCallbackThrows c HB_disconnected
     then [SocketLog "error" "error in heartbeat callback"] else []) in
  c' = set_effects (effects c ++ reported) c
  /\ (forall msg, SocketPush msg ∉ reported)
  /\ pendingHeartbeatRef c' = pendingHeartbeatRef c
  /\ ref c' = ref c
  /\ accessTokenValue c' = accessTokenValue c
  /\ channels c' = channels c
  /\ _wasManualDisconnect c' = _wasManualDisconnect c
  /\ _authPromise c' = _authPromise c
  /\ promises c' = promises c
  /\ awaiting c' = awaiting c
  /\ timeouts c' = timeouts c.
Proof.
  intros Hconn c' reported.
  assert (Hc : c' = set_effects (effects c ++ reported) c)
    by now apply sendHeartbeat_disconnected_run.
  split; [exact Hc|]. split.
  - intros msg Hin. subst reported.
    destruct (heartbeatCallbackThrows c HB_disconnected);
      repeat (apply elem_of_cons in Hin as [Hin|Hin]; [discriminate Hin|]);
      now apply elem_of_nil in Hin.
  - rewrite Hc. repeat split.
Qed.

Lemma sendHeartbeat_disconnected_witness :
  pendingHeartbeatRef
    (exec (sendHeartbeat (K := sample_constants))
          (set_pendingHeartbeatRef (Some "7")
             (new_RealtimeClient true (fun _ => true) None)))
  = Some "7".
Proof.
  apply (sendHeartbeat_disconnected
           (set_pendingHeartbeatRef (Some "7")
              (new_RealtimeClient true (fun _ => true) None))).
  reflexivity.
Defined.

Lemma loose_neq_refl a : loose_neq a a = false.
Proof. unfold loose_neq. now rewrite bool_decide_eq_true_2. Qed.

(** What [sendHeartbeat] does on a connected client with no pending ref. *)
Lemma sendHeartbeat_sent `{Constants} (d : RealtimeClient) :
  isConnected d = true ->
  truthy (pendingHeartbeatRef d) = false ->
  let r := toString (next_ref (ref d)) in
  let d' := exec sendHeartbeat d in
  effects d' =
    effects d ++
    [SocketPush {| msg_topic := "phoenix"; msg_event := "heartbeat";
                   msg_payload := []; msg_ref := r; msg_join_ref := None |};
     HeartbeatCallback HB_sent] ++
    (if heartbeatCallbackThrows d HB_sent
     then [SocketLog "error" "error in heartbeat callback"] else []) ++
    [if accessToken d then AccessTokenCall
     else SocketLog "auth" "performing auth"]
  /\ pendingHeartbeatRef d' = Some r.
Proof.
  intros Hconn Hpend r d'. subst r d'.
  unfold sendHeartbeat, _setAuthSafely, setAuth, _performAuth, propagate,
    new_promise, _makeRef, next_ref.
  js_unfold. rewrite Hconn. simpl. rewrite Hpend. simpl.
  destruct (js_succ (ref d) =? ref d)%Z; simpl;
    destruct (heartbeatCallbackThrows d HB_sent); simpl;
    destruct (accessToken d); simpl;
    rewrite ?loose_neq_refl; simpl; rewrite <- ?app_assoc; split; reflexivity.
Qed.

Lemma sendHeartbeat_timeout_run `{Constants} (c : RealtimeClient) :
  isConnected c = true ->
  truthy (pendingHeartbeatRef c) = true ->
  exec sendHeartbeat c =
    set_timeouts (timeouts c ++ [(T_heartbeat_fallback, 100%Z)])
      (set_effects
         (effects c ++
          [SocketLog "transport"
             "heartbeat timeout. Attempting to re-establish connection";
           HeartbeatCallback HB_timeout] ++
          (if heartbeatCallbackThrows c HB_timeout
           then [SocketLog "error" "error in heartbeat callback"] else []) ++
          [SocketDisconnect (Some WS_CLOSE_NORMAL) (Some "heartbeat timeout");
           SetTimeout T_heartbeat_fallback 100])
         (set_wasManualDisconnect false (set_pendingHeartbeatRef None c))).
Proof.
  intros Hconn Hpend. unfold sendHeartbeat. js_unfold. rewrite Hconn. simpl.
  rewrite Hpend. simpl.
  destruct (heartbeatCallbackThrows c HB_timeout); client_eq.
Qed.



(** ** Invariants: the rules *)

Section Maintains.
Context {K : Constants}.
Variable P : RealtimeClient -> Prop.

Lemma maintains_ret {A} (a : A) : maintains P (ret a).
Proof. intros c HP. exact HP. Qed.

Lemma maintains_gets {A} (f : RealtimeClient -> A) : maintains P (gets f).
Proof. intros c HP. exact HP. Qed.

Lemma maintains_modify (f : RealtimeClient -> RealtimeClient) :
  (forall c, P c -> P (f c)) -> maintains P (modify f).
Proof. intros Hf c HP. apply Hf, HP. Qed.

Lemma maintains_bind {A B} (m : M A) (k : A -> M B) :
  maintains P m -> (forall a, maintains P (k a)) -> maintains P (bind m k).
Proof.
  intros Hm Hk c HP. specialize (Hm c HP).
  unfold exec, bind in *. destruct (m c) as [a c']. apply (Hk a c' Hm).
Qed.

Lemma maintains_when (b : bool) (m : M unit) :
  maintains P m -> maintains P (when b m).
Proof. intros Hm. destruct b; [exact Hm | apply maintains_ret]. Qed.

Lemma maintains_forEach (f : RealtimeChannel -> M RealtimeChannel) chs :
  (forall ch, maintains P (f ch)) -> maintains P (forEach f chs).
Proof.
  intros Hf. induction chs as [|ch rest IH]; simpl.
  - apply maintains_ret.
  - apply maintains_bind; [apply Hf|]. intros ch'.
    apply maintains_bind; [apply IH|]. intros rest'. apply maintains_ret.
Qed.

Lemma maintains_unsubscribe_all chs :
  (forall ch, maintains P (unsubscribe ch)) ->
  maintains P (unsubscribe_all chs).
Proof.
  intros Hf. induction chs as [|ch rest IH]; simpl.
  - apply maintains_ret.
  - apply maintains_bind; [apply Hf|]. intros st.
    apply maintains_bind; [apply IH|]. intros sts. apply maintains_ret.
Qed.

Lemma maintains_run steps :
  (forall st, maintains P (step st)) ->
  forall c, P c -> P (run steps c).
Proof.
  intros Hstep. induction steps as [|st steps IH]; intros c HP; [exact HP|].
  simpl. apply IH, Hstep, HP.
Qed.

End Maintains.

(** One layer of a method body.  [tac] settles the side condition of a
    field update. *)
Ltac maintain_step tac :=
  lazymatch goal with
  | |- maintains _ (bind _ _) => apply maintains_bind; [|intros ?]
  | |- maintains _ (ret _) => apply maintains_ret
  | |- maintains _ (gets _) => apply maintains_gets
  | |- maintains _ (modify _) => apply maintains_modify; tac
  | |- maintains _ (when _ _) => apply maintains_when
  | |- maintains _ (forEach _ _) => apply maintains_forEach; intros ?
  | |- maintains _ (unsubscribe_all _) =>
      apply maintains_unsubscribe_all; intros ?; unfold unsubscribe, new_promise
  | |- maintains _ (emit _) => unfold emit
  | |- maintains _ (_remove _) => unfold _remove
  | |- maintains _ _makeRef => unfold _makeRef
  | |- maintains _ (if ?b then _ else _) => destruct b
  | |- maintains _ (match ?x with _ => _ end) => destruct x
  end.

(** The method bodies down to the calls that change the registry of
    channels, which are left folded. *)
Ltac unfold_methods :=
  unfold step, sendHeartbeat, fire, run_task, scheduleTimeout, resume, connect,
    _setAuthSafely, setAuth, accessToken_settles, _performAuth, settle,
    removeAllChannels, removeChannel, unsubscribe, leave_replied, new_promise,
    disconnect, heartbeat_reply, onHeartbeat, reportHeartbeat,
    setTimeout, push, log, emit;
  cbv zeta.

Ltac unfold_registry :=
  unfold propagate, auth_channel, phoenixChannel_push, updateJoinPayload,
    channel, getChannels, _remove, channel_joined, log, emit;
  cbv zeta.

(** ** [disconnect] and the manual-disconnect flag *)

Lemma step_keeps_flag_unset `{Constants} st :
  maintains manual_flag_unset (step st).
Proof.
  destruct st; unfold_methods; unfold_registry;
    repeat maintain_step ltac:(intros ? HP; first [exact HP | reflexivity]).
Qed.

Lemma reachable_flag_unset `{Constants} c :
  reachable c -> _wasManualDisconnect c = false.
Proof.
  intros (a & cb & re & steps & ->).
  apply (maintains_run manual_flag_unset); [apply step_keeps_flag_unset|].
  reflexivity.
Qed.

(** ** The ref counter and the pending heartbeat ref *)

Lemma _makeRef_keeps_range : maintains ref_in_range _makeRef.
Proof.
  intros c Hr. unfold exec. rewrite _makeRef_run. now apply next_ref_range.
Qed.

Lemma step_keeps_ref_in_range `{Constants} st :
  maintains ref_in_range (step st).
Proof.
  destruct st; unfold_methods; unfold_registry;
    repeat first
      [ apply _makeRef_keeps_range
      | maintain_step ltac:(intros ? HP; exact HP) ].
Qed.

(** On every client made by the constructor the counter is an integer
    between 0 and 2^53, where [js_succ] is the addition of doubles. *)
Lemma reachable_ref_in_range `{Constants} c :
  reachable c -> (0 <= ref c <= MAX_EXACT)%Z.
Proof.
  intros (a & cb & re & steps & ->).
  apply (maintains_run ref_in_range); [apply step_keeps_ref_in_range|].
  unfold ref_in_range. simpl. pose proof MAX_EXACT_pos. lia.
Qed.

Lemma toString_nonempty z : toString z <> "".
Proof.
  destruct z as [|p|p]; [discriminate | | discriminate].
  unfold toString, pretty, pretty_Z, pretty, pretty_positive, pretty, pretty_N.
  destruct (decide (N.pos p = 0%N)) as [E|_]; [discriminate E|].
  rewrite pretty_N_go_step by lia. apply pretty_N_go_nonempty. discriminate.
Qed.

Lemma sendHeartbeat_keeps_pending_ref_truthy `{Constants} :
  maintains pending_ref_truthy sendHeartbeat.
Proof.
  intros c HP. destruct (isConnected c) eqn:Hconn.
  - destruct (truthy (pendingHeartbeatRef c)) eqn:Hpend.
    + rewrite sendHeartbeat_timeout_run by assumption. now left.
    + destruct (sendHeartbeat_sent c Hconn Hpend) as [_ Hp].
      right. rewrite Hp. simpl.
      apply negb_true_iff, String.eqb_neq, toString_nonempty.
  - rewrite sendHeartbeat_disconnected_run by assumption. exact HP.
Qed.

Lemma step_keeps_pending_ref_truthy `{Constants} st :
  maintains pending_ref_truthy (step st).
Proof.
  destruct st;
    try (apply sendHeartbeat_keeps_pending_ref_truthy);
    unfold_methods; unfold_registry;
    repeat maintain_step ltac:(intros ? HP; first [exact HP | now left]).
Qed.

(** On every client made by the constructor, a pending heartbeat ref that
    is set passes the test [if (this.pendingHeartbeatRef)]. *)
Lemma reachable_pending_ref_truthy `{Constants} c r :
  reachable c -> pendingHeartbeatRef c = Some r ->
  truthy (pendingHeartbeatRef c) = true.
Proof.
  intros (a & cb & re & steps & ->) Hr.
  assert (HP : pending_ref_truthy
                 (run steps (new_RealtimeClient a cb re))).
  { apply (maintains_run pending_ref_truthy);
      [apply step_keeps_pending_ref_truthy | now left]. }
  destruct HP as [HP|HP]; [congruence | exact HP].
Qed.

(** What [disconnect(code, reason)] does on a client that is not already
    disconnecting: the transport is told to close with that code and
    reason, and no field of the client is written, [_wasManualDisconnect]
    included. *)
Theorem disconnect_closes_transport `{Constants} (c : RealtimeClient)
    (code : option Z) (reason : option string) :
  isDisconnecting c = false ->
  let c' := exec (disconnect code reason) c in
  c' = set_effects (effects c ++ [SocketDisconnect code reason]) c
  /\ _wasManualDisconnect c' = _wasManualDisconnect c
  /\ timeouts c' = timeouts c
  /\ (reachable c -> _wasManualDisconnect c' = false).
Proof.
  intros Hd c'.
  assert (Hc : c' = set_effects (effects c ++ [SocketDisconnect code reason]) c).
  { subst c'. unfold disconnect. js_unfold. now rewrite Hd. }
  split; [exact Hc|]. rewrite Hc. split; [reflexivity|]. split; [reflexivity|].
  intros Hr. simpl. now apply reachable_flag_unset.
Qed.

Lemma disconnect_closes_transport_witness :
  effects (exec (disconnect (Some 1000%Z) (Some "bye"))
             (new_RealtimeClient false (fun _ => false) None))
  = [SocketDisconnect (Some 1000%Z) (Some "bye")].
Proof.
  pose proof (disconnect_closes_transport (H := sample_constants)
                (new_RealtimeClient false (fun _ => false) None)
                (Some 1000%Z) (Some "bye") eq_refl) as [Hc _].
  simpl in Hc. rewrite Hc. reflexivity.
Defined.

(** C2.  The client declares [_wasManualDisconnect] and [sendHeartbeat]
    resets it to [false] before its forced close, but [disconnect] never
    sets it and nothing reads it.  On a client made by the constructor a
    heartbeat is sent and the next one times out, the transport closes, and
    the application calls [disconnect()] on the client, which is not
    disconnecting: the transport is told to close, the flag is still
    [false], and the 100 ms timeout left by the heartbeat then schedules
    the reconnection timer, whose tick and callback tell the socket to
    connect with no [connect()] call by the application. *)
Lemma disconnect_is_not_manual :
  let created := new_RealtimeClient false (fun _ => false) None in
  let c := run (K := sample_constants)
             [Env_socket Open; Call_sendHeartbeat; Env_resume 0;
              Call_sendHeartbeat; Env_socket Closed] created in
  let c' := exec (disconnect None None) c in
  isDisconnecting c = false
  /\ _wasManualDisconnect c' = false
  /\ effects (run (K := sample_constants)
                [Env_timeout 0; Env_timeout 0; Env_timeout 0] c')
     = effects c' ++
       [TimerSchedule 1000; SetTimeout T_reconnect_settle 10; SocketConnect]
  /\ last (effects c') = Some (SocketDisconnect None None).
Proof. vm_compute. repeat split. Qed.

(** ** The channel registry: removal *)

Lemma unique_topics_eq (l : list RealtimeChannel) x y :
  NoDup (map topic l) -> x ∈ l -> y ∈ l -> topic x = topic y -> x = y.
Proof.
  induction l as [|a l IH]; intros Hnd Hx Hy Ht.
  - now apply elem_of_nil in Hx.
  - simpl in Hnd. apply NoDup_cons in Hnd as [Ha Hnd].
    apply elem_of_cons in Hx as [->|Hx]; apply elem_of_cons in Hy as [->|Hy].
    + reflexivity.
    + exfalso. apply Ha. rewrite Ht. now apply list_elem_of_fmap_2.
    + exfalso. apply Ha. rewrite <- Ht. now apply list_elem_of_fmap_2.
    + now apply IH.
Qed.

Lemma unsubscribe_run (ch : RealtimeChannel) c :
  unsubscribe ch c =
    (length (promises c),
     set_promises (promises c ++ [AwaitingLeave ch])
       (set_effects (effects c ++ [ChannelLeave (chan_id ch)]) c)).
Proof. reflexivity. Qed.

Lemma removeChannel_run (ch : RealtimeChannel) c :
  removeChannel ch c =
    (length (promises c),
     set_awaiting (awaiting c ++ [(length (promises c), K_removeChannel)])
       (set_promises (promises c ++ [AwaitingLeave ch])
          (set_effects (effects c ++ [ChannelLeave (chan_id ch)]) c))).
Proof. reflexivity. Qed.

Lemma leave_replied_run p status ch d :
  promises d !! p = Some (AwaitingLeave ch) ->
  exec (leave_replied p status) d =
    set_promises (<[p := LeaveReplied status]> (promises d))
      (set_channels
         (List.filter (fun c' => negb (String.eqb (topic c') (topic ch)))
                      (channels d)) d).
Proof.
  intros Hp. unfold leave_replied, exec, bind, gets. cbv beta iota.
  rewrite Hp. reflexivity.
Qed.

Lemma leave_replied_skip p status d :
  (forall ch, promises d !! p <> Some (AwaitingLeave ch)) ->
  exec (leave_replied p status) d = d.
Proof.
  intros Hp. unfold leave_replied, exec, bind, gets. cbv beta iota.
  destruct (promises d !! p) as [[| | ch | |]|] eqn:E; try reflexivity.
  now destruct (Hp ch).
Qed.

Lemma elem_of_remove_topic (l : list RealtimeChannel) ch x :
  x ∈ List.filter (fun c' => negb (String.eqb (topic c') (topic ch))) l
  <-> x ∈ l /\ topic x <> topic ch.
Proof.
  rewrite !list_elem_of_In, filter_In, negb_true_iff, String.eqb_neq.
  reflexivity.
Qed.

Lemma disconnect_channels `{Constants} code reason c :
  channels (exec (disconnect code reason) c) = channels c.
Proof. unfold disconnect. js_unfold. now case_match. Qed.

Lemma disconnect_effects `{Constants} code reason c :
  effects (exec (disconnect code reason) c) =
  effects c ++
  (if isDisconnecting c then [] else [SocketDisconnect code reason]).
Proof.
  unfold disconnect. js_unfold. case_match; simpl; [|reflexivity].
  now rewrite app_nil_r.
Qed.

Lemma resume_waits_for_leave `{Constants} i p k ch e :
  awaiting e !! i = Some (p, k) ->
  promises e !! p = Some (AwaitingLeave ch) ->
  exec (resume i) e = e.
Proof.
  intros Ha Hp. unfold resume, exec, bind, gets. cbv beta iota.
  rewrite Ha, Hp. reflexivity.
Qed.

Lemma resume_removeChannel_run `{Constants} i p status e :
  awaiting e !! i = Some (p, K_removeChannel) ->
  promises e !! p = Some (LeaveReplied status) ->
  exec (resume i) e =
    exec (emit (RemoveChannelReturns status))
      (if bool_decide (channels e = [])
       then exec (disconnect None None) (set_awaiting (delete i (awaiting e)) e)
       else set_awaiting (delete i (awaiting e)) e).
Proof.
  intros Ha Hp. unfold resume, exec, bind, gets. cbv beta iota.
  rewrite Ha, Hp. unfold disconnect. js_unfold. simpl.
  destruct (channels e) as [|a rest]; simpl.
  - unfold isDisconnecting. simpl. now destruct (socketState e).
  - reflexivity.
Qed.

Lemma resume_removeChannel_effects `{Constants} i p status e :
  awaiting e !! i = Some (p, K_removeChannel) ->
  promises e !! p = Some (LeaveReplied status) ->
  effects (exec (resume i) e) =
    effects e ++
    (if bool_decide (channels e = []) && negb (isDisconnecting e)
     then [SocketDisconnect None None] else []) ++
    [RemoveChannelReturns status]
  /\ channels (exec (resume i) e) = channels e.
Proof.
  intros Ha Hl. rewrite (resume_removeChannel_run i p status e Ha Hl).
  destruct (bool_decide (channels e = [])); split; try reflexivity.
  - unfold emit at 1. unfold exec at 1, modify. simpl.
    rewrite disconnect_effects. simpl.
    change (isDisconnecting (set_awaiting (delete i (awaiting e)) e))
      with (isDisconnecting e).
    rewrite <- app_assoc. now destruct (isDisconnecting e).
  - unfold emit at 1. unfold exec at 1, modify. simpl.
    now rewrite disconnect_channels.
Qed.

(** C3.  [removeChannel(ch)] on a registered channel [ch], phase by phase.
    The call sends the leave of [ch] and waits for its acknowledgment with
    the registry untouched; as long as the reply is not in, the suspended
    call does nothing, in whatever state [e] the client is.  When the reply
    comes, in whatever state [d] the client is by then, [ch] leaves the
    registry whatever the reply says.  When the call goes on, in whatever
    state [e] the client is by then, it calls [disconnect()] exactly when
    the registry is empty at that time (a call that reaches the transport
    unless it is already closing) and returns the reply as its status.  When
    nothing else happens in between, [ch] and only [ch] has left the
    registry; on the last channel the registry ends empty and the transport
    is told to close, and while other channels remain it is not.  The
    registry that counts is the one the call finds when it goes on: when a
    channel is created while the leave of the last channel is awaited, the
    registry is not empty afterwards and there is no disconnect. *)
Theorem removeChannel_unsubscribes_and_removes `{Constants}
    (c d e : RealtimeClient) (ch : RealtimeChannel)
    (status : RealtimeRemoveChannelResponse) (i : nat) :
  ch ∈ channels c ->
  unique_topics c ->
  let p := eval (removeChannel ch) c in
  let c' := exec (removeChannel ch) c in
  let done :=
    run [Call_removeChannel ch; Env_leave p status;
         Env_resume (length (awaiting c))] c in
  (effects c' = effects c ++ [ChannelLeave (chan_id ch)]
   /\ promises c' !! p = Some (AwaitingLeave ch)
   /\ awaiting c' !! length (awaiting c) = Some (p, K_removeChannel)
   /\ channels c' = channels c)
  /\ (awaiting e !! i = Some (p, K_removeChannel) ->
      promises e !! p = Some (AwaitingLeave ch) ->
      exec (resume i) e = e)
  /\ (promises d !! p = Some (AwaitingLeave ch) ->
      let d' := exec (leave_replied p status) d in
      channels d' =
        List.filter (fun x => negb (String.eqb (topic x) (topic ch))) (channels d)
      /\ (ch ∉ channels d')
      /\ promises d' !! p = Some (LeaveReplied status)
      /\ effects d' = effects d
      /\ awaiting d' = awaiting d)
  /\ (awaiting e !! i = Some (p, K_removeChannel) ->
      promises e !! p = Some (LeaveReplied status) ->
      let e' := exec (resume i) e in
      e' = exec (emit (RemoveChannelReturns status))
             (if bool_decide (channels e = [])
              then exec (disconnect None None)
                     (set_awaiting (delete i (awaiting e)) e)
              else set_awaiting (delete i (awaiting e)) e)
      /\ channels e' = channels e
      /\ effects e' =
           effects e ++
           (if bool_decide (channels e = []) && negb (isDisconnecting e)
            then [SocketDisconnect None None] else []) ++
           [RemoveChannelReturns status])
  /\ ((forall x, x ∈ channels done <-> x ∈ channels c /\ x <> ch)
      /\ effects done =
           effects c ++ [ChannelLeave (chan_id ch)] ++
           (if bool_decide (channels done = []) && negb (isDisconnecting c)
            then [SocketDisconnect None None] else []) ++
           [RemoveChannelReturns status]
      /\ (channels c = [ch] ->
          channels done = []
          /\ effects done =
               effects c ++ [ChannelLeave (chan_id ch)] ++
               (if isDisconnecting c then [] else [SocketDisconnect None None]) ++
               [RemoveChannelReturns status])
      /\ ((exists other, other ∈ channels c /\ other <> ch) ->
          effects done =
            effects c ++
            [ChannelLeave (chan_id ch); RemoveChannelReturns status]))
  /\ (let created := new_RealtimeClient false (fun _ => false) None in
      let a := eval (channel "a" 0) created in
      let later :=
        run [Call_channel "a" 0; Call_removeChannel a; Call_channel "c" 2;
             Env_leave 0 R_ok; Env_resume 0] created in
      map topic (channels later) = ["realtime:c"]
      /\ effects later = [ChannelLeave (chan_id a); RemoveChannelReturns R_ok]).
Proof.
  intros Hin Huniq p c' done.
  assert (Hp : p = length (promises c)) by reflexivity.
  assert (Hc' : c' =
     set_awaiting (awaiting c ++ [(p, K_removeChannel)])
       (set_promises (promises c ++ [AwaitingLeave ch])
          (set_effects (effects c ++ [ChannelLeave (chan_id ch)]) c)))
    by reflexivity.
  assert (Hwait : promises c' !! p = Some (AwaitingLeave ch)).
  { rewrite Hc', Hp. simpl. apply list_lookup_middle. reflexivity. }
  split; [|split; [|split; [|split; [|split; [|split; reflexivity]]]]].
  - split; [now rewrite Hc'|]. split; [exact Hwait|].
    split; [|now rewrite Hc'].
    rewrite Hc'. simpl. apply list_lookup_middle. reflexivity.
  - intros Ha Hl. exact (resume_waits_for_leave i p _ ch e Ha Hl).
  - intros Hl d'. subst d'. rewrite (leave_replied_run p status ch d Hl). simpl.
    split; [reflexivity|]. split.
    + rewrite elem_of_remove_topic. intros [_ Hne]. now apply Hne.
    + split; [|split; reflexivity].
      apply list_lookup_insert_eq. now apply lookup_lt_Some in Hl.
  - intros Ha Hl e'. subst e'.
    destruct (resume_removeChannel_effects i p status e Ha Hl) as [Heff Hch].
    split; [exact (resume_removeChannel_run i p status e Ha Hl)|].
    split; [exact Hch | exact Heff].
  - set (rest := List.filter
                   (fun x => negb (String.eqb (topic x) (topic ch)))
                   (channels c)).
    set (d1 := exec (leave_replied p status) c').
    assert (Hd1 : d1 = set_promises (<[p := LeaveReplied status]> (promises c'))
                         (set_channels rest c')).
    { unfold d1. now rewrite (leave_replied_run p status ch c' Hwait), Hc'. }
    assert (Hdone : done = exec (resume (length (awaiting c))) d1) by reflexivity.
    assert (Ha1 : awaiting d1 !! length (awaiting c) = Some (p, K_removeChannel)).
    { rewrite Hd1, Hc'. simpl. apply list_lookup_middle. reflexivity. }
    assert (Hl1 : promises d1 !! p = Some (LeaveReplied status)).
    { rewrite Hd1. simpl. apply list_lookup_insert_eq.
      now apply lookup_lt_Some in Hwait. }
    assert (Hr : effects done =
              effects d1 ++
              (if bool_decide (channels d1 = []) && negb (isDisconnecting d1)
               then [SocketDisconnect None None] else []) ++
              [RemoveChannelReturns status]
              /\ channels done = channels d1).
    { rewrite Hdone.
      exact (resume_removeChannel_effects _ p status d1 Ha1 Hl1). }
    destruct Hr as [Heff Hch].
    assert (Hch1 : channels d1 = rest) by now rewrite Hd1.
    assert (Heff1 : effects d1 = effects c ++ [ChannelLeave (chan_id ch)])
      by now rewrite Hd1, Hc'.
    assert (Hdis1 : isDisconnecting d1 = isDisconnecting c)
      by now rewrite Hd1, Hc'.
    assert (Hmem : forall x, x ∈ rest <-> x ∈ channels c /\ x <> ch).
    { intros x. unfold rest. rewrite elem_of_remove_topic. split.
      - intros [Hx Ht]. split; [exact Hx|]. intros ->. now apply Ht.
      - intros [Hx Hne]. split; [exact Hx|]. intros Ht. apply Hne.
        now apply (unique_topics_eq (channels c)). }
    rewrite Hch, Hch1. rewrite Heff, Hch1, Heff1, Hdis1.
    split; [exact Hmem|]. split; [now rewrite <- app_assoc|]. split.
    + intros Hone.
      assert (Hnil : rest = []).
      { apply elem_of_nil_inv. intros x Hx.
        apply Hmem in Hx as [Hx Hne]. rewrite Hone in Hx.
        apply list_elem_of_singleton in Hx. contradiction. }
      split; [exact Hnil|]. rewrite Hnil.
      rewrite bool_decide_eq_true_2 by reflexivity. simpl.
      rewrite <- app_assoc. now destruct (isDisconnecting c).
    + intros (other & Ho & Hne).
      assert (Hnn : rest <> []).
      { intros Hnil. assert (Hx : other ∈ rest) by (apply Hmem; now split).
        rewrite Hnil in Hx. now apply elem_of_nil in Hx. }
      rewrite bool_decide_eq_false_2 by exact Hnn. simpl.
      now rewrite <- app_assoc.
Qed.

Lemma removeChannel_unsubscribes_and_removes_witness :
  let created := new_RealtimeClient false (fun _ => false) None in
  let lobby := eval (channel "lobby" 0) created in
  let c := exec (channel "lobby" 0) created in
  let done :=
    run (K := sample_constants)
      [Call_removeChannel lobby; Env_leave 0 R_timed_out; Env_resume 0] c in
  lobby ∈ channels c
  /\ unique_topics c
  /\ channels done = []
  /\ effects done =
       effects c ++
       [ChannelLeave (chan_id lobby); SocketDisconnect None None;
        RemoveChannelReturns R_timed_out].
Proof.
  intros created lobby c done.
  assert (Hin : lobby ∈ channels c) by apply list_elem_of_here.
  assert (Huniq : unique_topics c) by apply NoDup_singleton.
  destruct (removeChannel_unsubscribes_and_removes (H := sample_constants)
              c c c lobby R_timed_out 0 Hin Huniq)
    as (_ & _ & _ & _ & (_ & _ & Hlast & _) & _).
  destruct (Hlast eq_refl) as [Hch Heff].
  split; [exact Hin|]. split; [exact Huniq|]. split; [exact Hch | exact Heff].
Defined.

(** ** The channel registry: bulk removal *)

Lemma unsubscribe_all_run chs c :
  unsubscribe_all chs c =
    (seq (length (promises c)) (length chs),
     set_promises (promises c ++ map AwaitingLeave chs)
       (set_effects
          (effects c ++ map (fun ch => ChannelLeave (chan_id ch)) chs) c)).
Proof.
  revert c. induction chs as [|ch chs IH]; intros c.
  - simpl. unfold ret. f_equal.
    apply client_ext; simpl; rewrite ?app_nil_r; reflexivity.
  - simpl. unfold bind at 1. rewrite unsubscribe_run.
    unfold bind, ret. rewrite IH. simpl. rewrite length_app. simpl.
    replace (length (promises c) + 1) with (S (length (promises c))) by lia.
    f_equal. client_eq.
Qed.

Lemma removeAllChannels_run c :
  removeAllChannels c =
    (length (promises c) + length (channels c),
     set_awaiting
       (awaiting c ++
        [(length (promises c) + length (channels c), K_removeAllChannels)])
       (set_promises
          (promises c ++ map AwaitingLeave (channels c) ++
           [AllOf (seq (length (promises c)) (length (channels c)))])
          (set_effects
             (effects c ++
              map (fun ch => ChannelLeave (chan_id ch)) (channels c)) c))).
Proof.
  unfold removeAllChannels, bind, gets. rewrite unsubscribe_all_run.
  unfold new_promise, bind, gets, modify, ret. simpl.
  rewrite length_app, length_map. f_equal. client_eq.
Qed.

Lemma leave_statuses_all (ps : list PromiseState) (qs : list nat)
    (f : nat -> RealtimeRemoveChannelResponse) :
  (forall q, q ∈ qs -> ps !! q = Some (LeaveReplied (f q))) ->
  leave_statuses ps qs = Some (map f qs).
Proof.
  induction qs as [|q qs IH]; intros Hall; [reflexivity|].
  simpl. rewrite (Hall q) by apply list_elem_of_here.
  rewrite IH; [reflexivity|].
  intros q' Hq'. apply Hall. now apply list_elem_of_further.
Qed.

Lemma leave_statuses_missing (ps : list PromiseState) (qs : list nat) k :
  k ∈ qs ->
  (forall s, ps !! k <> Some (LeaveReplied s)) ->
  leave_statuses ps qs = None.
Proof.
  induction qs as [|q qs IH]; intros Hk Hno.
  - now apply elem_of_nil in Hk.
  - simpl. apply elem_of_cons in Hk as [<-|Hk].
    + destruct (ps !! k) as [[| | | s |]|] eqn:E; try reflexivity.
      now destruct (Hno s).
    + rewrite (IH Hk Hno). now repeat case_match.
Qed.

Lemma resume_waits_for_all `{Constants} i q qs e :
  awaiting e !! i = Some (q, K_removeAllChannels) ->
  promises e !! q = Some (AllOf qs) ->
  leave_statuses (promises e) qs = None ->
  exec (resume i) e = e.
Proof.
  intros Ha Hq Hnone. unfold resume, exec, bind, gets. cbv beta iota.
  rewrite Ha, Hq, Hnone. reflexivity.
Qed.

Lemma resume_removeAllChannels_run `{Constants} i q qs values e :
  awaiting e !! i = Some (q, K_removeAllChannels) ->
  promises e !! q = Some (AllOf qs) ->
  leave_statuses (promises e) qs = Some values ->
  exec (resume i) e =
    exec (emit (RemoveAllChannelsReturns values))
      (exec (disconnect None None)
         (set_channels [] (set_awaiting (delete i (awaiting e)) e))).
Proof.
  intros Ha Hq Hall. unfold resume, exec, bind, gets. cbv beta iota.
  rewrite Ha, Hq, Hall. unfold disconnect. js_unfold. simpl.
  unfold isDisconnecting. simpl. now destruct (socketState e).
Qed.

(** The replies to a number of leaves, one after the other. *)
Lemma leave_replies_frame `{Constants} (p0 : nat)
    (reply : nat -> RealtimeRemoveChannelResponse) (ks : list nat) d :
  let d' := run (map (fun k => Env_leave (p0 + k) (reply k)) ks) d in
  effects d' = effects d
  /\ awaiting d' = awaiting d
  /\ socketState d' = socketState d
  /\ (forall j st, promises d !! j = Some st ->
        (forall ch, st <> AwaitingLeave ch) -> promises d' !! j = Some st)
  /\ (forall j, (forall k, k ∈ ks -> p0 + k <> j) ->
        promises d' !! j = promises d !! j).
Proof.
  revert d. induction ks as [|k ks IH]; intros d d'.
  - subst d'. simpl. repeat split; auto.
  - subst d'.
    change (run (map (fun k => Env_leave (p0 + k) (reply k)) (k :: ks)) d)
      with (run (map (fun k => Env_leave (p0 + k) (reply k)) ks)
              (exec (leave_replied (p0 + k) (reply k)) d)).
    set (d1 := exec (leave_replied (p0 + k) (reply k)) d).
    assert (Hd1 : effects d1 = effects d /\ awaiting d1 = awaiting d
                  /\ socketState d1 = socketState d
                  /\ (forall j st, promises d !! j = Some st ->
                        (forall ch, st <> AwaitingLeave ch) ->
                        promises d1 !! j = Some st)
                  /\ (forall j, p0 + k <> j ->
                        promises d1 !! j = promises d !! j)).
    { unfold d1.
      destruct (promises d !! (p0 + k)) as [[| | ch | |]|] eqn:E;
        try (rewrite leave_replied_skip by (intros ch'; rewrite E; congruence);
             repeat split; auto).
      rewrite (leave_replied_run _ _ ch d E). simpl.
      repeat split; auto.
      - intros j st Hj Hst. destruct (decide (p0 + k = j)) as [<-|Hne].
        + rewrite E in Hj. injection Hj as <-. now destruct (Hst ch).
        + now rewrite list_lookup_insert_ne.
      - intros j Hne. now rewrite list_lookup_insert_ne. }
    destruct Hd1 as (He & Ha & Hs & Hkeep & Hother).
    destruct (IH d1) as (He' & Ha' & Hs' & Hkeep' & Hother').
    split; [now rewrite He'|]. split; [now rewrite Ha'|].
    split; [now rewrite Hs'|]. split.
    + intros j st Hj Hst. apply Hkeep'; [|exact Hst]. now apply Hkeep.
    + intros j Hj. rewrite Hother'.
      * apply Hother. apply Hj, list_elem_of_here.
      * intros k' Hk'. apply Hj. now apply list_elem_of_further.
Qed.

Lemma leave_replies_answer `{Constants} (p0 : nat)
    (reply : nat -> RealtimeRemoveChannelResponse) (ks : list nat) d k ch :
  NoDup ks ->
  k ∈ ks ->
  promises d !! (p0 + k) = Some (AwaitingLeave ch) ->
  promises (run (map (fun k => Env_leave (p0 + k) (reply k)) ks) d) !! (p0 + k)
  = Some (LeaveReplied (reply k)).
Proof.
  revert d. induction ks as [|k0 ks IH]; intros d Hnd Hk Hl.
  - now apply elem_of_nil in Hk.
  - apply NoDup_cons in Hnd as [Hk0 Hnd].
    change (run (map (fun k => Env_leave (p0 + k) (reply k)) (k0 :: ks)) d)
      with (run (map (fun k => Env_leave (p0 + k) (reply k)) ks)
              (exec (leave_replied (p0 + k0) (reply k0)) d)).
    set (d1 := exec (leave_replied (p0 + k0) (reply k0)) d).
    apply elem_of_cons in Hk as [->|Hk].
    + assert (Hd1 : promises d1 !! (p0 + k0) = Some (LeaveReplied (reply k0))).
      { unfold d1. rewrite (leave_replied_run _ _ ch d Hl). simpl.
        apply list_lookup_insert_eq. now apply lookup_lt_Some in Hl. }
      destruct (leave_replies_frame p0 reply ks d1) as (_ & _ & _ & Hkeep & _).
      apply Hkeep; [exact Hd1 | discriminate].
    + apply (IH d1 Hnd Hk).
      assert (Hne : p0 + k0 <> p0 + k).
      { intros Heq. apply Hk0. replace k0 with k by lia. exact Hk. }
      unfold d1.
      destruct (promises d !! (p0 + k0)) as [[| | ch0 | |]|] eqn:E;
        try (rewrite leave_replied_skip by (intros ch'; rewrite E; congruence);
             exact Hl).
      rewrite (leave_replied_run _ _ ch0 d E). simpl.
      now rewrite list_lookup_insert_ne.
Qed.

Lemma run_app `{Constants} (xs ys : list Step) c :
  run (xs ++ ys) c = run ys (run xs c).
Proof. unfold run. apply fold_left_app. Qed.

(** C9.  [removeAllChannels()], phase by phase, whatever the registry
    holds.  The call sends a leave for every registered channel, in
    registration order and before any reply is in, and waits for all of
    them with the registry untouched: as long as one reply is missing the
    suspended call does nothing, in whatever state [e] the client is.  Once
    every leave has been answered, in whatever order the replies [order]
    came, the call goes on: it empties the registry, calls [disconnect()]
    whatever the registry held (a call that reaches the transport unless it
    is already closing), and returns one status per channel in registration
    order, the [k]-th status being the reply to the leave of the [k]-th
    channel.  On a client that never connected, with one channel that never
    joined, it returns one status and leaves the registry empty. *)
Theorem removeAllChannels_clears_registry `{Constants} (c e : RealtimeClient)
    (i : nat) (reply : nat -> RealtimeRemoveChannelResponse)
    (order : list nat) :
  order ≡ₚ seq 0 (length (channels c)) ->
  let n := length (channels c) in
  let p0 := length (promises c) in
  let q := eval removeAllChannels c in
  let c' := exec removeAllChannels c in
  let leaves := seq p0 n in
  let replies := map (fun k => Env_leave (p0 + k) (reply k)) in
  let statuses := map reply (seq 0 n) in
  (effects c' =
     effects c ++ map (fun ch => ChannelLeave (chan_id ch)) (channels c)
   /\ promises c' =
        promises c ++ map AwaitingLeave (channels c) ++ [AllOf leaves]
   /\ awaiting c' = awaiting c ++ [(q, K_removeAllChannels)]
   /\ channels c' = channels c)
  /\ (awaiting e !! i = Some (q, K_removeAllChannels) ->
      promises e !! q = Some (AllOf leaves) ->
      forall k, k ∈ leaves ->
        (forall s, promises e !! k <> Some (LeaveReplied s)) ->
        exec (resume i) e = e)
  /\ (forall early k, k < n -> (k ∉ early) ->
      run (Call_removeAllChannels :: replies early ++
           [Env_resume (length (awaiting c))]) c
      = run (Call_removeAllChannels :: replies early) c)
  /\ (awaiting e !! i = Some (q, K_removeAllChannels) ->
      promises e !! q = Some (AllOf leaves) ->
      (forall k, k < n ->
         promises e !! (p0 + k) = Some (LeaveReplied (reply k))) ->
      let e' := exec (resume i) e in
      e' = exec (emit (RemoveAllChannelsReturns statuses))
             (exec (disconnect None None)
                (set_channels [] (set_awaiting (delete i (awaiting e)) e)))
      /\ channels e' = []
      /\ effects e' =
           effects e ++
           (if isDisconnecting e then [] else [SocketDisconnect None None]) ++
           [RemoveAllChannelsReturns statuses])
  /\ (let done :=
        run (Call_removeAllChannels :: replies order ++
             [Env_resume (length (awaiting c))]) c in
      channels done = []
      /\ effects done =
           effects c ++
           map (fun ch => ChannelLeave (chan_id ch)) (channels c) ++
           (if isDisconnecting c then [] else [SocketDisconnect None None]) ++
           [RemoveAllChannelsReturns statuses]
      /\ length statuses = length (channels c))
  /\ (let created := new_RealtimeClient false (fun _ => false) None in
      let lobby := exec (channel "lobby" 0) created in
      let done :=
        run [Call_removeAllChannels; Env_leave 0 R_ok; Env_resume 0] lobby in
      channels done = []
      /\ effects done =
           effects lobby ++
           [ChannelLeave (chan_id (eval (channel "lobby" 0) created));
            SocketDisconnect None None; RemoveAllChannelsReturns [R_ok]]).
Proof.
  intros Hperm n p0 q c' leaves replies statuses.
  assert (Hq : q = p0 + n)
    by (unfold q, eval; now rewrite removeAllChannels_run).
  assert (Hc' : c' =
     set_awaiting (awaiting c ++ [(q, K_removeAllChannels)])
       (set_promises
          (promises c ++ map AwaitingLeave (channels c) ++ [AllOf leaves])
          (set_effects
             (effects c ++
              map (fun ch => ChannelLeave (chan_id ch)) (channels c)) c)))
    by (unfold c', exec; rewrite removeAllChannels_run, Hq; reflexivity).
  assert (Hstatuses : forall ps,
            (forall k, k < n -> ps !! (p0 + k) = Some (LeaveReplied (reply k))) ->
            leave_statuses ps leaves = Some statuses).
  { intros ps Hall. unfold leaves, statuses.
    rewrite (leave_statuses_all ps (seq p0 n) (fun j => reply (j - p0))).
    - f_equal. replace p0 with (p0 + 0) at 1 by lia.
      rewrite <- fmap_add_seq.
      change (map (fun j => reply (j - p0)) (Nat.add p0 <$> seq 0 n))
        with (map (fun j => reply (j - p0)) (map (Nat.add p0) (seq 0 n))).
      rewrite map_map. apply map_ext. intros k. f_equal. lia.
    - intros j Hj. apply elem_of_seq in Hj.
      replace j with (p0 + (j - p0)) at 1 by lia. apply Hall. lia. }
  assert (Hresume : forall e0,
            awaiting e0 !! i = Some (q, K_removeAllChannels) ->
            promises e0 !! q = Some (AllOf leaves) ->
            True) by auto.
  clear Hresume.
  assert (Hgo : forall j e0,
            awaiting e0 !! j = Some (q, K_removeAllChannels) ->
            promises e0 !! q = Some (AllOf leaves) ->
            (forall k, k < n ->
               promises e0 !! (p0 + k) = Some (LeaveReplied (reply k))) ->
            exec (resume j) e0 =
              exec (emit (RemoveAllChannelsReturns statuses))
                (exec (disconnect None None)
                   (set_channels [] (set_awaiting (delete j (awaiting e0)) e0)))
            /\ channels (exec (resume j) e0) = []
            /\ effects (exec (resume j) e0) =
                 effects e0 ++
                 (if isDisconnecting e0 then []
                  else [SocketDisconnect None None]) ++
                 [RemoveAllChannelsReturns statuses]).
  { intros j e0 Ha Hl Hall.
    rewrite (resume_removeAllChannels_run j q leaves statuses e0 Ha Hl
               (Hstatuses _ Hall)).
    split; [reflexivity|]. split.
    - unfold emit at 1. unfold exec at 1, modify. simpl.
      now rewrite disconnect_channels.
    - unfold emit at 1. unfold exec at 1, modify. simpl.
      rewrite disconnect_effects. simpl.
      change (isDisconnecting
                (set_channels [] (set_awaiting (delete j (awaiting e0)) e0)))
        with (isDisconnecting e0).
      now rewrite <- app_assoc. }
  assert (Hcall : forall ks,
            run (Call_removeAllChannels :: replies ks) c = run (replies ks) c').
  { intros ks.
    change (run (Call_removeAllChannels :: replies ks) c)
      with (run (replies ks) (exec (step Call_removeAllChannels) c)).
    f_equal. unfold c', exec, step, bind, ret.
    now rewrite removeAllChannels_run. }
  assert (Hleaf : forall k, k < n ->
            exists ch, promises c' !! (p0 + k) = Some (AwaitingLeave ch)).
  { intros k Hk. destruct (lookup_lt_is_Some_2 (channels c) k Hk) as [ch Hch].
    exists ch. rewrite Hc'. simpl. unfold p0.
    rewrite lookup_app_r by lia.
    replace (length (promises c) + k - length (promises c)) with k by lia.
    rewrite lookup_app_l by (rewrite length_map; exact Hk).
    change (map AwaitingLeave (channels c)) with (AwaitingLeave <$> channels c).
    now rewrite list_lookup_fmap, Hch. }
  assert (Hall_of : promises c' !! q = Some (AllOf leaves)).
  { rewrite Hc', Hq. simpl. unfold p0, n.
    rewrite lookup_app_r by lia.
    replace (length (promises c) + length (channels c) - length (promises c))
      with (length (map AwaitingLeave (channels c)))
      by (rewrite length_map; lia).
    apply list_lookup_middle. reflexivity. }
  assert (Hwaiter : awaiting c' !! length (awaiting c)
                    = Some (q, K_removeAllChannels)).
  { rewrite Hc'. simpl. apply list_lookup_middle. reflexivity. }
  split; [|split; [|split; [|split; [|split]]]].
  - rewrite Hc'. simpl. repeat split; reflexivity.
  - intros Ha Hl k Hk Hno.
    apply (resume_waits_for_all i q leaves e Ha Hl).
    exact (leave_statuses_missing _ _ k Hk Hno).
  - intros early k Hk Hearly.
    change (Call_removeAllChannels :: replies early ++
            [Env_resume (length (awaiting c))])
      with ((Call_removeAllChannels :: replies early) ++
            [Env_resume (length (awaiting c))]).
    rewrite run_app, Hcall.
    destruct (leave_replies_frame p0 reply early c')
      as (_ & Ha & _ & Hkeep & Hother).
    fold (replies early) in Ha, Hkeep, Hother.
    set (d := run (replies early) c') in *.
    change (run [Env_resume (length (awaiting c))] d)
      with (exec (resume (length (awaiting c))) d).
    destruct (Hleaf k Hk) as [ch Hch].
    apply (resume_waits_for_all _ q leaves d).
    + now rewrite Ha.
    + apply Hkeep; [exact Hall_of | discriminate].
    + apply (leave_statuses_missing _ _ (p0 + k)).
      * apply elem_of_seq. lia.
      * intros s. rewrite Hother, Hch; [discriminate|].
        intros k' Hk' Heq. apply Hearly. replace k with k' by lia. exact Hk'.
  - intros Ha Hl Hall e'. subst e'. exact (Hgo i e Ha Hl Hall).
  - intros done.
    assert (Hdone : done = exec (resume (length (awaiting c)))
                             (run (replies order) c')).
    { unfold done.
      change (Call_removeAllChannels :: replies order ++
              [Env_resume (length (awaiting c))])
        with ((Call_removeAllChannels :: replies order) ++
              [Env_resume (length (awaiting c))]).
      now rewrite run_app, Hcall. }
    destruct (leave_replies_frame p0 reply order c')
      as (He & Ha & Hs & Hkeep & _).
    fold (replies order) in He, Ha, Hs, Hkeep.
    set (d := run (replies order) c') in *.
    assert (Hnd : NoDup order).
    { rewrite Hperm. apply NoDup_seq. }
    destruct (Hgo (length (awaiting c)) d) as (_ & Hch & Heff).
    + now rewrite Ha.
    + apply Hkeep; [exact Hall_of | discriminate].
    + intros k Hk. destruct (Hleaf k Hk) as [ch Hch].
      apply (leave_replies_answer p0 reply order c' k ch Hnd); [|exact Hch].
      rewrite Hperm. apply elem_of_seq. lia.
    + rewrite Hdone. split; [exact Hch|]. split.
      * rewrite Heff, He, Hc'. simpl.
        unfold isDisconnecting. rewrite Hs, Hc'. simpl.
        now rewrite <- app_assoc.
      * unfold statuses. now rewrite length_map, length_seq.
  - split; reflexivity.
Qed.

Lemma removeAllChannels_clears_registry_witness :
  let created := new_RealtimeClient false (fun _ => false) None in
  let c := exec (channel "chat" 1) (exec (channel "lobby" 0) created) in
  let reply := fun k : nat => if (k =? 0)%nat then R_ok else R_timed_out in
  let done :=
    run (K := sample_constants)
      [Call_removeAllChannels; Env_leave 1 R_timed_out; Env_leave 0 R_ok;
       Env_resume 0] c in
  [1; 0] ≡ₚ seq 0 (length (channels c))
  /\ channels done = []
  /\ effects done =
       effects c ++
       [ChannelLeave 0; ChannelLeave 1; SocketDisconnect None None;
        RemoveAllChannelsReturns [R_ok; R_timed_out]].
Proof.
  intros created c reply done.
  assert (Hperm : [1; 0] ≡ₚ seq 0 (length (channels c)))
    by apply Permutation_swap.
  destruct (removeAllChannels_clears_registry (H := sample_constants)
              c c 0 reply [1; 0] Hperm)
    as (_ & _ & _ & _ & (Hch & Heff & _) & _).
  split; [exact Hperm|]. split; [exact Hch | exact Heff].
Defined.

(** ** Auth: propagation to the channels *)

Lemma auth_channel_run `{Constants} tokenToSend ch c :
  auth_channel tokenToSend ch c =
    (auth_channel_result tokenToSend ch,
     set_effects (effects c ++ auth_channel_effects tokenToSend ch) c).
Proof.
  unfold auth_channel, auth_channel_result, auth_channel_effects,
    updateJoinPayload, phoenixChannel_push.
  destruct tokenToSend as [t|]; [destruct (truthy (Some t))|];
    destruct (joinedOnce ch) eqn:Ej; js_unfold; simpl; rewrite ?Ej; simpl;
    f_equal; client_eq; now rewrite app_nil_r.
Qed.

Lemma forEach_auth_run `{Constants} tokenToSend chs c :
  forEach (auth_channel tokenToSend) chs c =
    (map (auth_channel_result tokenToSend) chs,
     set_effects
       (effects c ++ flat_map (auth_channel_effects tokenToSend) chs) c).
Proof.
  revert c. induction chs as [|ch chs IH]; intros c; simpl.
  - unfold ret. f_equal. client_eq. now rewrite app_nil_r.
  - unfold bind at 1. rewrite auth_channel_run.
    unfold bind at 1. rewrite IH. unfold ret. f_equal. client_eq.
Qed.

Lemma propagate_run `{Constants} tokenToSend c :
  exec (propagate tokenToSend) c =
    if loose_neq (accessTokenValue c) tokenToSend
    then set_channels (map (auth_channel_result tokenToSend) (channels c))
           (set_accessTokenValue tokenToSend
              (set_effects
                 (effects c ++ [SocketLog "auth" "performing auth"] ++
                  flat_map (auth_channel_effects tokenToSend) (channels c)) c))
    else set_effects (effects c ++ [SocketLog "auth" "performing auth"]) c.
Proof.
  unfold propagate, exec, log, emit.
  unfold bind at 1, modify at 1. unfold bind at 1, gets at 1. simpl.
  destruct (loose_neq (accessTokenValue c) tokenToSend); [|reflexivity].
  unfold bind at 1, modify at 1. unfold bind at 1, gets at 1.
  unfold bind at 1. rewrite forEach_auth_run. unfold modify. simpl.
  client_eq.
Qed.

Lemma loose_neq_true a b : a <> b -> loose_neq a b = true.
Proof. intros Hne. unfold loose_neq. now rewrite bool_decide_eq_false_2. Qed.

(** C6, as amended.  In an auth pass whose resolved token differs from the
    stored one, the stored token becomes the resolved one and the channels
    are visited in registration order.  For each channel the join payload
    is set to [{access_token, version}] when the resolved token is a
    non-empty string, and is left as it was when the token is null or empty;
    then the auth-update message is pushed, and a push that throws is
    caught and logged.  What is done for one channel depends on that channel
    alone, so a push that throws stops nothing for the others.  When the
    resolved token equals the stored one no channel is touched. *)
Theorem propagate_reaches_every_channel `{Constants} (c : RealtimeClient)
    (tokenToSend : option string) :
  let c' := exec (propagate tokenToSend) c in
  (accessTokenValue c <> tokenToSend ->
     accessTokenValue c' = tokenToSend
     /\ channels c' = map (auth_channel_result tokenToSend) (channels c)
     /\ effects c' =
          effects c ++ [SocketLog "auth" "performing auth"] ++
          flat_map (auth_channel_effects tokenToSend) (channels c)
     /\ (forall i ch, channels c !! i = Some ch ->
           exists ch',
             channels c' !! i = Some ch'
             /\ chan_id ch' = chan_id ch /\ topic ch' = topic ch
             /\ joinedOnce ch' = joinedOnce ch
             /\ (forall t, tokenToSend = Some t -> t <> "" ->
                   joinPayload ch' =
                     Some {| jp_access_token := t;
                             jp_version := DEFAULT_VERSION |}
                   /\ UpdateJoinPayload (chan_id ch)
                        {| jp_access_token := t;
                           jp_version := DEFAULT_VERSION |}
                      ∈ auth_channel_effects tokenToSend ch)
             /\ (truthy tokenToSend = false ->
                   ch' = ch
                   /\ forall e, e ∈ auth_channel_effects tokenToSend ch ->
                                is_UpdateJoinPayload e = false)
             /\ (joinedOnce ch = true ->
                   ChannelPush (chan_id ch) CHANNEL_EVENTS_access_token
                     tokenToSend ∈ auth_channel_effects tokenToSend ch)
             /\ (joinedOnce ch = false ->
                   SocketLog "auth" "error pushing access token"
                     ∈ auth_channel_effects tokenToSend ch)))
  /\ (accessTokenValue c = tokenToSend ->
        c' = set_effects (effects c ++ [SocketLog "auth" "performing auth"]) c
        /\ channels c' = channels c
        /\ accessTokenValue c' = accessTokenValue c).
Proof.
  intros c'. subst c'. rewrite propagate_run. split.
  - intros Hne. rewrite loose_neq_true by exact Hne.
    split; [reflexivity|]. split; [reflexivity|]. split; [reflexivity|].
    intros i ch Hi. exists (auth_channel_result tokenToSend ch).
    split; [simpl; now rewrite list_lookup_fmap, Hi|].
    unfold auth_channel_result, auth_channel_effects.
    assert (Hno : forall e,
              e ∈ (if joinedOnce ch
                   then [ChannelPush (chan_id ch) CHANNEL_EVENTS_access_token
                           tokenToSend;
                         SocketLog "auth" "pushed access token"]
                   else [SocketLog "auth" "error pushing access token"]) ->
              is_UpdateJoinPayload e = false).
    { intros e He. destruct (joinedOnce ch);
        repeat (apply elem_of_cons in He as [->|He]; [reflexivity|]);
        now apply elem_of_nil in He. }
    destruct tokenToSend as [t|]; simpl.
    + destruct (String.eqb t "") eqn:Et; simpl.
      * split; [reflexivity|]. split; [reflexivity|]. split; [reflexivity|].
        split.
        { intros t' [= <-] Hn. apply String.eqb_eq in Et. contradiction. }
        split. { intros _. split; [reflexivity | exact Hno]. }
        split; intros ->; apply list_elem_of_here.
      * split; [reflexivity|]. split; [reflexivity|]. split; [reflexivity|].
        split.
        { intros t' [= <-] _. split; [reflexivity | apply list_elem_of_here]. }
        split. { discriminate. }
        split; intros ->; apply list_elem_of_further, list_elem_of_here.
    + split; [reflexivity|]. split; [reflexivity|]. split; [reflexivity|].
      split. { discriminate. }
      split. { intros _. split; [reflexivity | exact Hno]. }
      split; intros ->; apply list_elem_of_here.
  - intros Heq. rewrite Heq, loose_neq_refl.
    split; [reflexivity|]. split; [reflexivity|]. simpl. now rewrite Heq.
Qed.

(** C6, as stated, fails.  The [accessToken] callback resolves to [null]
    while the token ["old"] is stored: the resolved token differs, the
    stored token is updated and the auth message is pushed, but the join
    payload of the channel still carries ["old"]. *)
Lemma null_token_leaves_join_payload :
  let c := run (K := sample_constants)
             [Call_channel "room" 0; Env_joined 0;
              Call_setAuth (Some "old"); Env_resume 0;
              Call_setAuth None]
             (new_RealtimeClient true (fun _ => false) None) in
  let c' := exec (accessToken_settles (K := sample_constants) 1 (Resolves None)) c in
  accessTokenValue c = Some "old"
  /\ accessTokenValue c' = None
  /\ map joinPayload (channels c)
     = [Some {| jp_access_token := "old"; jp_version := "1.0.0" |}]
  /\ map joinPayload (channels c')
     = [Some {| jp_access_token := "old"; jp_version := "1.0.0" |}]
  /\ drop (length (effects c)) (effects c')
     = [SocketLog "auth" "performing auth";
        ChannelPush 0 "access_token" None;
        SocketLog "auth" "pushed access token"].
Proof. vm_compute. repeat split. Qed.

(** ** Auth: overlapping calls of [setAuth] *)

Lemma exec_bind {A B} (m : M A) (k : A -> M B) c :
  exec (bind m k) c = exec (k (eval m c)) (exec m c).
Proof. unfold exec, eval, bind. now destruct (m c). Qed.

Lemma propagate_frame `{Constants} tokenToSend c :
  let c' := exec (propagate tokenToSend) c in
  _authPromise c' = _authPromise c
  /\ promises c' = promises c
  /\ awaiting c' = awaiting c
  /\ accessToken c' = accessToken c.
Proof.
  simpl. rewrite propagate_run.
  destruct (loose_neq (accessTokenValue c) tokenToSend); repeat split.
Qed.


Lemma accessToken_settles_run `{Constants} p o c :
  promises c !! p = Some AwaitingAccessToken ->
  exec (accessToken_settles p o) c =
    match o with
    | Resolves tokenToSend =>
        exec (settle p Fulfilled) (exec (propagate tokenToSend) c)
    | Rejects => exec (settle p Rejected) c
    end.
Proof.
  intros Hp. unfold accessToken_settles. rewrite exec_bind.
  unfold eval at 1, exec at 2, gets at 1 2. simpl. rewrite Hp.
  destruct o; [|reflexivity]. now rewrite exec_bind.
Qed.





(** ** The channel registry: one session per topic *)

Lemma find_app_new {A} (f : A -> bool) l x :
  List.find f l = None -> f x = true -> List.find f (l ++ [x]) = Some x.
Proof.
  intros Hn Hx. induction l as [|a l IH]; simpl in *.
  - now rewrite Hx.
  - destruct (f a); [discriminate|]. now apply IH.
Qed.

Lemma find_none_topic (l : list RealtimeChannel) t :
  List.find (fun c => String.eqb (topic c) t) l = None -> t ∉ map topic l.
Proof.
  intros Hn Hin. apply list_elem_of_fmap in Hin as (x & -> & Hx).
  apply list_elem_of_In in Hx.
  pose proof (find_none _ _ Hn x Hx) as Hf. simpl in Hf.
  now rewrite String.eqb_refl in Hf.
Qed.

Lemma channel_run_new `{Constants} t opts c :
  List.find (fun x => String.eqb (topic x) ("realtime:" +:+ t)) (channels c)
    = None ->
  channel t opts c =
    (new_RealtimeChannel (allocated c) ("realtime:" +:+ t) opts,
     set_channels
       (channels c ++
        [new_RealtimeChannel (allocated c) ("realtime:" +:+ t) opts])
       (set_allocated (S (allocated c)) c)).
Proof.
  intros Hf. unfold channel, getChannels. js_unfold. cbv zeta. now rewrite Hf.
Qed.

Lemma channel_run_existing `{Constants} t opts c ch :
  List.find (fun x => String.eqb (topic x) ("realtime:" +:+ t)) (channels c)
    = Some ch ->
  channel t opts c = (ch, c).
Proof.
  intros Hf. unfold channel, getChannels. js_unfold. cbv zeta. now rewrite Hf.
Qed.

Lemma channel_keeps_unique_topics `{Constants} t opts :
  maintains unique_topics (channel t opts).
Proof.
  intros c Hu. unfold exec.
  destruct (List.find (fun x => String.eqb (topic x) ("realtime:" +:+ t))
                      (channels c)) as [ch|] eqn:Hf.
  - now rewrite (channel_run_existing _ _ _ _ Hf).
  - rewrite (channel_run_new _ _ _ Hf). unfold unique_topics in *. simpl.
    rewrite map_app. apply NoDup_app. split; [exact Hu|]. split.
    + intros x Hx Hin. simpl in Hin. apply list_elem_of_singleton in Hin.
      subst x. now apply find_none_topic in Hf.
    + apply NoDup_singleton.
Qed.

Lemma NoDup_topic_filter (f : RealtimeChannel -> bool) l :
  NoDup (map topic l) -> NoDup (map topic (List.filter f l)).
Proof.
  induction l as [|a l IH]; simpl; intros Hn; [exact Hn|].
  apply NoDup_cons in Hn as [Ha Hn]. destruct (f a); simpl; [|now apply IH].
  apply NoDup_cons. split; [|now apply IH].
  intros Hin. apply Ha.
  apply list_elem_of_fmap in Hin as (x & Hx & Hin).
  apply list_elem_of_In, filter_In in Hin as [Hin _].
  rewrite Hx. now apply list_elem_of_fmap_2, list_elem_of_In.
Qed.

Lemma _remove_keeps_unique_topics `{Constants} ch :
  maintains unique_topics (_remove ch).
Proof. intros c Hu. now apply NoDup_topic_filter. Qed.

Lemma propagate_keeps_unique_topics `{Constants} tokenToSend :
  maintains unique_topics (propagate tokenToSend).
Proof.
  intros c Hu. rewrite propagate_run.
  destruct (loose_neq (accessTokenValue c) tokenToSend); [|exact Hu].
  unfold unique_topics in *. simpl. rewrite map_map.
  erewrite map_ext; [exact Hu|].
  intros ch. unfold auth_channel_result.
  destruct tokenToSend; [destruct (truthy _)|]; reflexivity.
Qed.

Lemma channel_joined_keeps_unique_topics `{Constants} id :
  maintains unique_topics (channel_joined id).
Proof.
  intros c Hu. unfold unique_topics in *. simpl. rewrite map_map.
  erewrite map_ext; [exact Hu|].
  intros ch. simpl. now destruct (chan_id ch =? id)%nat.
Qed.

Lemma step_keeps_unique_topics `{Constants} st :
  maintains unique_topics (step st).
Proof.
  destruct st; unfold_methods;
    repeat first
      [ apply channel_keeps_unique_topics
      | apply _remove_keeps_unique_topics
      | apply propagate_keeps_unique_topics
      | apply channel_joined_keeps_unique_topics
      | maintain_step ltac:(intros ? HP; first [exact HP | apply NoDup_nil_2]) ].
Qed.

Lemma reachable_unique_topics `{Constants} c : reachable c -> unique_topics c.
Proof.
  intros (a & cb & re & steps & ->).
  apply (maintains_run unique_topics); [apply step_keeps_unique_topics|].
  apply NoDup_nil_2.
Qed.

(** C7.  Two calls [channel(t, opts1)] and [channel(t, opts2)] in a row
    return the same channel object, and the second call changes nothing:
    its options are ignored.  The channel is the one the registry holds
    under the topic ["realtime:" + t], which is the topic the lookup uses.
    The calls keep the topics of the registry distinct, and on every client
    made by the constructor they are distinct. *)
Theorem channel_is_idempotent `{Constants} (c : RealtimeClient) (t : string)
    (opts1 opts2 : nat) :
  let ch1 := eval (channel t opts1) c in
  let c1 := exec (channel t opts1) c in
  let ch2 := eval (channel t opts2) c1 in
  let c2 := exec (channel t opts2) c1 in
  ch2 = ch1
  /\ c2 = c1
  /\ List.find (fun x => String.eqb (topic x) ("realtime:" +:+ t)) (channels c1)
     = Some ch1
  /\ topic ch1 = "realtime:" +:+ t
  /\ ch1 ∈ channels c1
  /\ (unique_topics c -> unique_topics c1 /\ unique_topics c2)
  /\ (reachable c -> unique_topics c /\ unique_topics c1).
Proof.
  intros ch1 c1 ch2 c2.
  assert (Hf1 : List.find (fun x => String.eqb (topic x) ("realtime:" +:+ t))
                          (channels c1) = Some ch1).
  { subst ch1 c1. unfold eval, exec.
    destruct (List.find (fun x => String.eqb (topic x) ("realtime:" +:+ t))
                        (channels c)) as [ch|] eqn:Hf.
    - now rewrite (channel_run_existing _ _ _ _ Hf).
    - rewrite (channel_run_new _ _ _ Hf). simpl.
      apply find_app_new; [exact Hf|]. simpl. apply String.eqb_refl. }
  assert (E2 : channel t opts2 c1 = (ch1, c1))
    by now apply channel_run_existing.
  assert (Hc2 : c2 = c1) by (subst c2; unfold exec; now rewrite E2).
  apply find_some in Hf1 as Hfound. destruct Hfound as [Hin Ht].
  split; [subst ch2; unfold eval; now rewrite E2|].
  split; [exact Hc2|]. split; [exact Hf1|].
  split; [now apply String.eqb_eq in Ht|].
  split; [now apply list_elem_of_In|].
  assert (Hk : unique_topics c -> unique_topics c1)
    by apply channel_keeps_unique_topics.
  split.
  - intros Hu. rewrite Hc2. split; now apply Hk.
  - intros Hr. apply reachable_unique_topics in Hr. split; [exact Hr|].
    now apply Hk.
Qed.

(** ** Channel options *)

Lemma object_spread_lookup (a b : gmap string JsValue) (k : string) :
  object_spread a b !! k =
    match b !! k with
    | Some v => Some v
    | None => a !! k
    end.
Proof.
  unfold object_spread. rewrite lookup_union.
  destruct (b !! k), (a !! k); reflexivity.
Qed.

Lemma default_config_lookup (k : string) :
  default_config !! k =
    if String.eqb k "broadcast"
    then Some (V_object [("ack", V_bool false); ("self", V_bool false)])
    else if String.eqb k "presence"
    then Some (V_object [("key", V_string ""); ("enabled", V_bool false)])
    else if String.eqb k "private" then Some (V_bool false)
    else None.
Proof.
  unfold default_config.
  destruct (String.eqb_spec k "broadcast") as [->|H1];
    [apply lookup_insert_eq|].
  rewrite lookup_insert_ne by congruence.
  destruct (String.eqb_spec k "presence") as [->|H2];
    [apply lookup_insert_eq|].
  rewrite lookup_insert_ne by congruence.
  destruct (String.eqb_spec k "private") as [->|H3];
    [apply lookup_insert_eq|].
  rewrite lookup_insert_ne by congruence. apply lookup_empty.
Qed.

(** C10.  The constructor of [PhoenixChannel] passes its options to
    [translateRealtimeOptionsToChannelParams], which changes the object it
    is given and returns that same object: its [config] property is set to
    a new object, and the channel is created with the caller's object as
    its params.  The new config holds every entry of the caller's config
    (none when the caller gave no config), and under them the defaults: a
    [broadcast] of [{ack: false, self: false}], a [presence] of
    [{key: '', enabled: false}] and a [private] of [false], each only where
    the caller has no entry of that name; it holds nothing else.  The
    caller's object is not what it was before the call. *)
Theorem translate_changes_the_callers_options (h : gmap nat Object)
    (options : nat) (config : option nat) :
  h !! options = Some (O_options config) ->
  exists a h',
    translateRealtimeOptionsToChannelParams options h = Some (options, h')
    /\ (forall t, new_PhoenixChannel t options h
                  = Some ({| pc_topic := t; pc_params := options |}, h'))
    /\ h !! a = None
    /\ h' !! options = Some (O_options (Some a))
    /\ (exists entries merged,
          h' !! a = Some (O_config merged)
          /\ (config = None -> entries = ∅)
          /\ (forall old own,
                config = Some old -> h !! old = Some (O_config own) ->
                entries = own)
          /\ (forall k v, entries !! k = Some v -> merged !! k = Some v)
          /\ (entries !! "broadcast" = None ->
              merged !! "broadcast" =
                Some (V_object [("ack", V_bool false); ("self", V_bool false)]))
          /\ (entries !! "presence" = None ->
              merged !! "presence" =
                Some (V_object [("key", V_string ""); ("enabled", V_bool false)]))
          /\ (entries !! "private" = None ->
              merged !! "private" = Some (V_bool false))
          /\ (forall k, k <> "broadcast" -> k <> "presence" -> k <> "private" ->
                merged !! k = entries !! k)
          /\ entries = spread_config h config
          /\ merged = object_spread default_config entries
          /\ forall k, merged !! k =
                         match entries !! k with
                         | Some v => Some v
                         | None => default_config !! k
                         end)
    /\ (forall l, l <> options -> l <> a -> h' !! l = h !! l)
    /\ ((forall l, config = Some l -> is_Some (h !! l)) ->
        h' !! options <> h !! options).
Proof.
  intros Ho.
  set (a := fresh (dom h)).
  assert (Ha : h !! a = None) by (apply not_elem_of_dom, is_fresh).
  assert (Hne : options <> a) by (intros ->; rewrite Ha in Ho; discriminate).
  exists a, (<[options := O_options (Some a)]>
               (<[a := O_config (object_spread default_config
                                   (spread_config h config))]> h)).
  assert (Ht : translateRealtimeOptionsToChannelParams options h =
               Some (options,
                     <[options := O_options (Some a)]>
                       (<[a := O_config (object_spread default_config
                                           (spread_config h config))]> h)))
    by (unfold translateRealtimeOptionsToChannelParams; now rewrite Ho).
  split; [exact Ht|]. split.
  { intros t. unfold new_PhoenixChannel. now rewrite Ht. }
  split; [exact Ha|]. split; [apply lookup_insert_eq|]. split.
  { exists (spread_config h config),
      (object_spread default_config (spread_config h config)).
    split; [rewrite lookup_insert_ne by exact Hne; apply lookup_insert_eq|].
    split; [now intros ->|].
    split; [intros old own -> Hold; simpl; now rewrite Hold|].
    split; [intros k v Hk; now rewrite object_spread_lookup, Hk|].
    split; [intros Hk; now rewrite object_spread_lookup, Hk|].
    split; [intros Hk; now rewrite object_spread_lookup, Hk|].
    split; [intros Hk; now rewrite object_spread_lookup, Hk|].
    split.
    - intros k H1 H2 H3. rewrite object_spread_lookup.
      destruct (spread_config h config !! k); [reflexivity|].
      rewrite default_config_lookup.
      apply String.eqb_neq in H1, H2, H3. now rewrite H1, H2, H3.
    - split; [reflexivity|]. split; [reflexivity|].
      intros k. apply object_spread_lookup. }
  split.
  { intros l Hl1 Hl2. rewrite lookup_insert_ne by congruence.
    now rewrite lookup_insert_ne by congruence. }
  intros Hwf Heq. rewrite lookup_insert_eq, Ho in Heq.
  injection Heq as Heq. destruct (Hwf a) as [o Hoa]; [now symmetry|].
  rewrite Ha in Hoa. discriminate.
Qed.

Lemma translate_changes_the_callers_options_witness :
  let own : gmap string JsValue :=
    <["private" := V_bool true]> (<["vsn" := V_string "2"]> ∅) in
  let h : gmap nat Object :=
    <[0 := O_options (Some 1)]> (<[1 := O_config own]> ∅) in
  h !! 0 = Some (O_options (Some 1))
  /\ exists a h' merged,
       translateRealtimeOptionsToChannelParams 0 h = Some (0, h')
       /\ a <> 1
       /\ h' !! 0 = Some (O_options (Some a))
       /\ h' !! a = Some (O_config merged)
       /\ merged !! "private" = Some (V_bool true)
       /\ merged !! "vsn" = Some (V_string "2")
       /\ merged !! "broadcast" =
            Some (V_object [("ack", V_bool false); ("self", V_bool false)])
       /\ merged !! "presence" =
            Some (V_object [("key", V_string ""); ("enabled", V_bool false)])
       /\ merged !! "other" = None.
Proof.
  intros own h. split; [reflexivity|].
  destruct (translate_changes_the_callers_options h 0 (Some 1) eq_refl)
    as (a & h' & Ht & _ & Ha & Ho &
        (entries & merged & Hm & _ & Hown & Hkeep & Hb & Hp & _ & Hrest & _)
        & _).
  assert (He : entries = own) by exact (Hown 1 own eq_refl eq_refl).
  exists a, h', merged. split; [exact Ht|].
  split; [intros ->; discriminate Ha|].
  split; [exact Ho|]. split; [exact Hm|].
  split; [apply Hkeep; rewrite He; reflexivity|].
  split; [apply Hkeep; rewrite He; reflexivity|].
  split; [apply Hb; rewrite He; reflexivity|].
  split; [apply Hp; rewrite He; reflexivity|].
  rewrite Hrest by discriminate. rewrite He. reflexivity.
Defined.

(** * Further properties *)

(** ** [connect] *)

(** X1.  [connect()] does nothing unless the transport is closed.  On a
    closed transport it tells the socket to connect, after starting one
    auth refresh exactly when an [accessToken] callback is registered and
    [_authPromise] is null; while [_authPromise] holds an operation it
    starts none.  It changes neither the stored token nor the registry.
    [_authPromise] being null does not mean that no operation is pending:
    after two overlapping [setAuth()] calls of which the first has
    finished, the field is null while the second still waits for the
    [accessToken] callback, and [connect()] then starts a third. *)
Theorem connect_starts_at_most_one_auth `{Constants} (c : RealtimeClient) :
  let c' := exec connect c in
  let starts := accessToken c && bool_decide (_authPromise c = None) in
  (socketState c <> Closed -> c' = c)
  /\ (socketState c = Closed ->
      effects c' =
        effects c ++ (if starts then [AccessTokenCall] else []) ++ [SocketConnect]
      /\ _authPromise c' =
           (if starts then Some (length (promises c)) else _authPromise c)
      /\ promises c' =
           promises c ++ (if starts then [AwaitingAccessToken] else [])
      /\ awaiting c' =
           awaiting c ++
           (if starts
            then [(length (promises c), K_setAuth (Some "connect"))] else [])
      /\ accessTokenValue c' = accessTokenValue c
      /\ channels c' = channels c
      /\ (_authPromise c <> None -> effects c' = effects c ++ [SocketConnect]))
  /\ (let busy :=
        run [Call_setAuth None; Call_setAuth None;
             Env_accessToken 0 (Resolves (Some "t")); Env_resume 0]
            (new_RealtimeClient true (fun _ => false) None) in
      _authPromise busy = None
      /\ promises busy = [Settled Fulfilled; AwaitingAccessToken]
      /\ awaiting busy = [(1, K_setAuth None)]
      /\ effects (exec connect busy) =
           effects busy ++ [AccessTokenCall; SocketConnect]).
Proof.
  intros c' starts. subst c' starts. split; [|split; [|repeat split]].
  - intros Hs. unfold connect. js_unfold.
    unfold isConnecting, isDisconnecting, isConnected.
    destruct (socketState c); try reflexivity. now contradiction Hs.
  - intros Hs.
    unfold connect, _setAuthSafely, setAuth, _performAuth, new_promise.
    js_unfold. unfold isConnecting, isDisconnecting, isConnected.
    rewrite Hs. simpl.
    destruct (accessToken c) eqn:Ha; simpl.
    + destruct (bool_decide (_authPromise c = None)) eqn:Hb; simpl.
      * rewrite Ha. simpl. rewrite <- app_assoc.
        apply bool_decide_eq_true_1 in Hb.
        repeat split. intros Hn. now contradiction Hn.
      * repeat split; now rewrite app_nil_r.
    + repeat split; now rewrite app_nil_r.
Qed.

(** ** Which token an auth operation uses *)

Lemma auth_channel_effects_no_provider_call `{Constants} tokenToSend chs :
  List.filter is_AccessTokenCall (flat_map (auth_channel_effects tokenToSend) chs)
  = [].
Proof.
  induction chs as [|ch chs IH]; [reflexivity|].
  simpl. rewrite List.filter_app, IH, app_nil_r.
  unfold auth_channel_effects.
  destruct tokenToSend as [t|]; [destruct (truthy (Some t))|];
    destruct (joinedOnce ch); reflexivity.
Qed.

Lemma propagate_no_provider_call `{Constants} tokenToSend c :
  count_effects is_AccessTokenCall (exec (propagate tokenToSend) c)
  = count_effects is_AccessTokenCall c.
Proof.
  unfold count_effects. rewrite propagate_run.
  destruct (loose_neq (accessTokenValue c) tokenToSend).
  - change (effects (set_channels _ _))
      with (effects c ++ [SocketLog "auth" "performing auth"] ++
            flat_map (auth_channel_effects tokenToSend) (channels c)).
    rewrite !List.filter_app, auth_channel_effects_no_provider_call. simpl.
    now rewrite !app_nil_r.
  - change (effects (set_effects _ _))
      with (effects c ++ [SocketLog "auth" "performing auth"]).
    rewrite List.filter_app. simpl. now rewrite app_nil_r.
Qed.

Lemma propagate_stores_token `{Constants} tokenToSend c :
  accessTokenValue (exec (propagate tokenToSend) c) = tokenToSend.
Proof.
  rewrite propagate_run.
  destruct (loose_neq (accessTokenValue c) tokenToSend) eqn:E; [reflexivity|].
  simpl. unfold loose_neq in E. apply negb_false_iff in E.
  now apply bool_decide_eq_true_1 in E.
Qed.

Lemma setAuth_run `{Constants} token caller c :
  let p := eval (_performAuth token) c in
  let c1 := exec (_performAuth token) c in
  setAuth token caller c =
    (p, set_awaiting (awaiting c1 ++ [(p, K_setAuth caller)])
          (set_authPromise (Some p) c1)).
Proof.
  unfold setAuth, eval, exec. unfold bind at 1.
  destruct (_performAuth token c) as [p c1]. reflexivity.
Qed.

Lemma _performAuth_run `{Constants} token c :
  _performAuth token c =
    if truthy token then
      (length (promises c),
       set_promises (promises c ++ [Settled Fulfilled])
         (exec (propagate token) c))
    else if accessToken c then
      (length (promises c),
       set_promises (promises c ++ [AwaitingAccessToken])
         (set_effects (effects c ++ [AccessTokenCall]) c))
    else
      (length (promises c),
       set_promises (promises c ++ [Settled Fulfilled])
         (set_effects (effects c ++ [SocketLog "auth" "performing auth"]) c)).
Proof.
  unfold _performAuth. destruct (truthy token).
  - unfold new_promise. unfold bind, gets, modify, ret.
    destruct (propagate_frame token c) as (_ & Hp & _).
    unfold exec in *. destruct (propagate token c) as [u c1]. simpl in *.
    now rewrite Hp.
  - unfold bind at 1, gets at 1. destruct (accessToken c) eqn:Ha.
    + reflexivity.
    + unfold bind at 1, gets at 1. unfold new_promise.
      unfold bind, gets, modify, ret.
      pose proof (propagate_run (accessTokenValue c) c) as Hr.
      rewrite loose_neq_refl in Hr. unfold exec in Hr.
      destruct (propagate (accessTokenValue c) c) as [u c1]. simpl in *.
      now rewrite Hr.
Qed.

(** X2.  [setAuth(token)] resolves the token to use in this order: a
    non-empty [token] argument, with which the [accessToken] callback is
    not called and the token is stored at once; else the callback, which is
    called once and leaves the stored token and the channels alone until it
    answers; else the stored token, with which nothing changes.  The empty
    string counts as no argument.  In every case [_authPromise] is set to
    the new operation. *)
Theorem setAuth_resolves_token_by_priority `{Constants} (c : RealtimeClient)
    (token caller : option string) :
  let c' := exec (setAuth token caller) c in
  _authPromise c' = Some (length (promises c))
  /\ eval (setAuth token caller) c = length (promises c)
  /\ setAuth (Some "") caller c = setAuth None caller c
  /\ (truthy token = true ->
        accessTokenValue c' = token
        /\ count_effects is_AccessTokenCall c' = count_effects is_AccessTokenCall c
        /\ promises c' = promises c ++ [Settled Fulfilled])
  /\ (truthy token = false -> accessToken c = true ->
        effects c' = effects c ++ [AccessTokenCall]
        /\ accessTokenValue c' = accessTokenValue c
        /\ channels c' = channels c
        /\ promises c' = promises c ++ [AwaitingAccessToken])
  /\ (truthy token = false -> accessToken c = false ->
        effects c' = effects c ++ [SocketLog "auth" "performing auth"]
        /\ accessTokenValue c' = accessTokenValue c
        /\ channels c' = channels c
        /\ promises c' = promises c ++ [Settled Fulfilled]).
Proof.
  intros c'. subst c'. unfold exec, eval. rewrite setAuth_run.
  unfold exec, eval. rewrite _performAuth_run.
  split; [repeat case_match; reflexivity|].
  split; [repeat case_match; reflexivity|].
  split; [reflexivity|]. split; [|split].
  - intros ->. simpl. split; [apply propagate_stores_token|].
    split; [apply propagate_no_provider_call | reflexivity].
  - intros -> ->. repeat split.
  - intros -> ->. repeat split.
Qed.

(** X3.  Propagating the same token twice in a row is propagating it
    once: the second pass finds the token stored, so it logs and touches
    no channel, whatever the first pass did. *)
Theorem propagate_is_idempotent `{Constants} (c : RealtimeClient)
    (tokenToSend : option string) :
  let c1 := exec (propagate tokenToSend) c in
  let c2 := exec (propagate tokenToSend) c1 in
  c2 = set_effects (effects c1 ++ [SocketLog "auth" "performing auth"]) c1
  /\ channels c2 = channels c1
  /\ accessTokenValue c2 = tokenToSend
  /\ count_effects is_ChannelPush c2 = count_effects is_ChannelPush c1
  /\ count_effects is_UpdateJoinPayload c2 = count_effects is_UpdateJoinPayload c1.
Proof.
  intros c1 c2.
  assert (Ht : accessTokenValue c1 = tokenToSend) by apply propagate_stores_token.
  assert (Hc : c2 = set_effects
                      (effects c1 ++ [SocketLog "auth" "performing auth"]) c1).
  { subst c2. rewrite propagate_run, Ht. now rewrite loose_neq_refl. }
  split; [exact Hc|]. rewrite Hc. split; [reflexivity|]. split; [exact Ht|].
  unfold count_effects.
  change (effects (set_effects _ c1))
    with (effects c1 ++ [SocketLog "auth" "performing auth"]).
  rewrite !List.filter_app. simpl. now rewrite !app_nil_r.
Qed.

(** ** A failing [accessToken] callback *)

(** X4.  When the [accessToken] callback of an auth operation fails and
    the [setAuth] call waiting for it resumes, the stored token and the
    channels are as before the failure, [_authPromise] is cleared, and the
    failure goes to exactly one place: the error log, with the context,
    when the call came through [_setAuthSafely]; the caller's promise
    otherwise. *)
Theorem failed_auth_is_reported_once `{Constants} (c : RealtimeClient)
    (p i : nat) (caller : option string) :
  promises c !! p = Some AwaitingAccessToken ->
  awaiting c !! i = Some (p, K_setAuth caller) ->
  let c' := exec (resume i) (exec (accessToken_settles p Rejects) c) in
  accessTokenValue c' = accessTokenValue c
  /\ channels c' = channels c
  /\ _authPromise c' = None
  /\ promises c' = <[p := Settled Rejected]> (promises c)
  /\ awaiting c' = delete i (awaiting c)
  /\ effects c' =
       effects c ++
       [match caller with
        | Some context =>
            SocketLog "error" ("error setting auth in " +:+ context)
        | None => PromiseRejected (K_setAuth None)
        end].
Proof.
  intros Hp Hi c'. subst c'.
  rewrite accessToken_settles_run by exact Hp.
  assert (Hlt : p < length (promises c))
    by (apply lookup_lt_is_Some; now rewrite Hp).
  unfold resume, settle. js_unfold. simpl. rewrite Hi.
  rewrite list_lookup_insert_eq by exact Hlt.
  destruct caller; simpl; repeat split.
Qed.

Lemma failed_auth_is_reported_once_witness :
  let c := exec (setAuth (K := sample_constants) None (Some "heartbeat"))
             (new_RealtimeClient true (fun _ => false) None) in
  effects (exec (resume (K := sample_constants) 0)
             (exec (accessToken_settles (K := sample_constants) 0 Rejects) c))
  = [AccessTokenCall; SocketLog "error" "error setting auth in heartbeat"].
Proof.
  intros c.
  destruct (failed_auth_is_reported_once (H := sample_constants)
              c 0 0 (Some "heartbeat") eq_refl eq_refl)
    as (_ & _ & _ & _ & _ & He).
  exact He.
Defined.

(** ** Reconnection waits for auth *)

(** X5.  The reconnection callback does not connect while [_authPromise]
    holds an operation: it waits for that operation.  When the operation is
    fulfilled it connects, and only if the client is still not connected;
    when the operation is rejected it does not connect at all.  While
    [_authPromise] is null it connects at once unless already connected,
    and that also when an operation is still pending: after two overlapping
    [setAuth()] calls of which the first has finished, the field is null
    while the second still waits for the [accessToken] callback, and the
    reconnection callback connects without waiting for it. *)
Theorem reconnection_waits_for_auth `{Constants} (c : RealtimeClient) :
  let c' := exec (run_task T_reconnect_settle) c in
  (forall p, _authPromise c = Some p ->
     c' = set_awaiting (awaiting c ++ [(p, K_reconnect)]) c)
  /\ (_authPromise c = None ->
      c' = if isConnected c then c else exec connect c)
  /\ (forall i p r, awaiting c !! i = Some (p, K_reconnect) ->
        promises c !! p = Some (Settled r) ->
        let waited := set_awaiting (delete i (awaiting c)) c in
        exec (resume i) c =
          match r with
          | Fulfilled => if isConnected c then waited else exec connect waited
          | Rejected =>
              set_effects (effects c ++ [PromiseRejected K_reconnect]) waited
          end)
  /\ (forall i p, awaiting c !! i = Some (p, K_reconnect) ->
        promises c !! p = Some AwaitingAccessToken ->
        exec (resume i) c = c)
  /\ (let busy :=
        run [Call_setAuth None; Call_setAuth None;
             Env_accessToken 0 (Resolves (Some "t")); Env_resume 0]
            (new_RealtimeClient true (fun _ => false) None) in
      _authPromise busy = None
      /\ promises busy = [Settled Fulfilled; AwaitingAccessToken]
      /\ awaiting busy = [(1, K_setAuth None)]
      /\ isConnected busy = false
      /\ effects (exec (run_task T_reconnect_settle) busy) =
           effects busy ++ [AccessTokenCall; SocketConnect]).
Proof.
  intros c'. subst c'. split; [|split; [|split; [|split; [|repeat split]]]].
  - intros p Hp. unfold run_task. js_unfold. now rewrite Hp.
  - intros Hp. unfold run_task. js_unfold. rewrite Hp.
    now destruct (isConnected c).
  - intros i p r Hi Hp waited. unfold resume. js_unfold. rewrite Hi, Hp.
    destruct r; [|reflexivity].
    change (isConnected (set_awaiting (delete i (awaiting c)) c))
      with (isConnected c).
    now destruct (isConnected c).
  - intros i p Hi Hp. unfold resume. js_unfold. now rewrite Hi, Hp.
Qed.

(** ** The backoff *)

(** X6.  The default reconnect delay is 1000, 2000, 5000 and 10000 ms for
    the first four attempts and 10000 ms for every later one; attempt 0,
    which has no entry in the table, also gets 10000 ms.  From attempt 1 on
    the delay never decreases, and it always lies between 1000 and 10000
    ms. *)
Theorem default_backoff_is_stepped (n m : nat) :
  default_reconnectAfterMs 1 = 1000%Z
  /\ default_reconnectAfterMs 2 = 2000%Z
  /\ default_reconnectAfterMs 3 = 5000%Z
  /\ default_reconnectAfterMs 0 = 10000%Z
  /\ (4 <= n -> default_reconnectAfterMs n = 10000%Z)
  /\ (1000 <= default_reconnectAfterMs n <= 10000)%Z
  /\ (1 <= n -> n <= m ->
      (default_reconnectAfterMs n <= default_reconnectAfterMs m)%Z).
Proof.
  assert (Hbig : forall k, 4 <= k -> default_reconnectAfterMs k = 10000%Z).
  { intros k Hk. do 4 (destruct k as [|k]; [lia|]).
    destruct k; reflexivity. }
  assert (Hrange : forall k, (1000 <= default_reconnectAfterMs k <= 10000)%Z).
  { intros k. destruct (le_lt_dec 4 k) as [Hk|Hk].
    - rewrite Hbig by exact Hk. lia.
    - do 4 (destruct k as [|k]; [vm_compute; split; discriminate|]). lia. }
  do 4 (split; [reflexivity|]). split; [apply Hbig|]. split; [apply Hrange|].
  intros Hn Hnm. destruct (le_lt_dec 4 m) as [Hm|Hm].
  - rewrite (Hbig m Hm). apply Hrange.
  - destruct n as [|[|[|[|n]]]]; try lia;
      destruct m as [|[|[|[|m]]]]; try lia; vm_compute; discriminate.
Qed.

(** X7.  No step of the client lowers the number of reconnection attempts
    counted by its reconnect timer: the timer is never reset, so after a
    run the delay of the next attempt is taken from the same or a later
    place in the backoff. *)
Theorem reconnect_attempts_never_reset `{Constants} (steps : list Step)
    (c : RealtimeClient) :
  reconnectTries c <= reconnectTries (run steps c).
Proof.
  apply (maintains_run (fun d => reconnectTries c <= reconnectTries d));
    [|lia].
  intros st. destruct st; unfold_methods; unfold_registry;
    repeat maintain_step
      ltac:(intros ? HP; first [exact HP | simpl; lia]).
Qed.

(** ** The heartbeat, tick after tick *)

Lemma heartbeat_reports_app es1 es2 :
  heartbeat_reports (es1 ++ es2) = heartbeat_reports es1 ++ heartbeat_reports es2.
Proof.
  induction es1 as [|e es1 IH]; [reflexivity|].
  destruct e; simpl; now rewrite IH.
Qed.

(** The calls one [sendHeartbeat] makes, in its three cases. *)
Lemma sendHeartbeat_effects `{Constants} (c : RealtimeClient) :
  effects (exec sendHeartbeat c) =
    effects c ++
    match heartbeat_status c with
    | HB_sent =>
        [SocketPush {| msg_topic := "phoenix"; msg_event := "heartbeat";
                       msg_payload := [];
                       msg_ref := toString (next_ref (ref c));
                       msg_join_ref := None |};
         HeartbeatCallback HB_sent] ++
        (if heartbeatCallbackThrows c HB_sent
         then [SocketLog "error" "error in heartbeat callback"] else []) ++
        [if accessToken c then AccessTokenCall
         else SocketLog "auth" "performing auth"]
    | HB_timeout =>
        [SocketLog "transport"
           "heartbeat timeout. Attempting to re-establish connection";
         HeartbeatCallback HB_timeout] ++
        (if heartbeatCallbackThrows c HB_timeout
         then [SocketLog "error" "error in heartbeat callback"] else []) ++
        [SocketDisconnect (Some WS_CLOSE_NORMAL) (Some "heartbeat timeout");
         SetTimeout T_heartbeat_fallback 100]
    | _ =>
        HeartbeatCallback HB_disconnected ::
        (if heartbeatCallbackThrows c HB_disconnected
         then [SocketLog "error" "error in heartbeat callback"] else [])
    end.
Proof.
  unfold heartbeat_status. destruct (isConnected c) eqn:Hconn; simpl.
  - destruct (truthy (pendingHeartbeatRef c)) eqn:Hpend.
    + now rewrite sendHeartbeat_timeout_run.
    + now destruct (sendHeartbeat_sent c Hconn Hpend) as [He _].
  - now rewrite sendHeartbeat_disconnected_run.
Qed.

(** X8.  Every call of [sendHeartbeat] reports exactly one status to the
    heartbeat callback.  It pushes a heartbeat exactly when the client is
    connected and no heartbeat ref is pending, so no second heartbeat is
    sent while one is unanswered; and it has the transport close exactly
    when the client is connected and a ref is pending. *)
Theorem sendHeartbeat_one_report_one_action `{Constants} (c : RealtimeClient) :
  let c' := exec sendHeartbeat c in
  heartbeat_reports (effects c') =
    heartbeat_reports (effects c) ++ [heartbeat_status c]
  /\ count_effects is_SocketPush c' =
       count_effects is_SocketPush c +
       (if isConnected c && negb (truthy (pendingHeartbeatRef c)) then 1 else 0)
  /\ count_effects is_SocketDisconnect c' =
       count_effects is_SocketDisconnect c +
       (if isConnected c && truthy (pendingHeartbeatRef c) then 1 else 0).
Proof.
  intros c'. subst c'. unfold count_effects. rewrite sendHeartbeat_effects.
  rewrite heartbeat_reports_app, !List.filter_app, !length_app.
  unfold heartbeat_status.
  destruct (isConnected c), (truthy (pendingHeartbeatRef c)); simpl;
    repeat match goal with
           | |- context [if ?b then _ else _] => destruct b; simpl
           end;
    repeat split; lia.
Qed.

Lemma sendHeartbeat_sent_frame `{Constants} (d : RealtimeClient) :
  isConnected d = true ->
  truthy (pendingHeartbeatRef d) = false ->
  let d' := exec sendHeartbeat d in
  socketState d' = socketState d
  /\ timeouts d' = timeouts d
  /\ heartbeatCallbackThrows d' = heartbeatCallbackThrows d
  /\ channels d' = channels d
  /\ accessTokenValue d' = accessTokenValue d.
Proof.
  intros Hconn Hpend d'. subst d'.
  unfold sendHeartbeat, _setAuthSafely, setAuth, _performAuth, propagate,
    new_promise, _makeRef.
  js_unfold. rewrite Hconn. simpl. rewrite Hpend. simpl.
  destruct (js_succ (ref d) =? ref d)%Z; simpl;
    destruct (heartbeatCallbackThrows d HB_sent); simpl;
    destruct (accessToken d); simpl;
    rewrite ?loose_neq_refl; simpl; repeat split.
Qed.

(** X9.  Two ticks with no reply in between: on a connected client with no
    pending ref, whose ref counter is an integer from 0 to 2^53 (where
    adding 1 to a double is exact, as on every client made by the
    constructor), the first [sendHeartbeat] reports ['sent'] and leaves its
    ref pending, and the second reports ['timeout'], clears the ref and has
    the transport close once.  A third tick that finds the transport no
    longer open reports ['disconnected'] and asks for no further close. *)
Theorem unanswered_heartbeat_times_out_once `{Constants} (c : RealtimeClient)
    (st : CONNECTION_STATE) :
  ref_in_range c ->
  isConnected c = true ->
  truthy (pendingHeartbeatRef c) = false ->
  st <> Open ->
  let c1 := exec sendHeartbeat c in
  let c2 := exec sendHeartbeat c1 in
  let c3 := exec sendHeartbeat (set_socketState st c2) in
  pendingHeartbeatRef c1 = Some (toString (next_ref (ref c)))
  /\ pendingHeartbeatRef c2 = None
  /\ pendingHeartbeatRef c3 = None
  /\ (heartbeat_reports (effects c3) =
        heartbeat_reports (effects c) ++ [HB_sent; HB_timeout; HB_disconnected]
      /\ count_effects is_SocketPush c3 = count_effects is_SocketPush c + 1
      /\ count_effects is_SocketDisconnect c3 =
           count_effects is_SocketDisconnect c + 1)
  /\ timeouts c3 = timeouts c ++ [(T_heartbeat_fallback, 100%Z)].
Proof.
  intros _ Hconn Hpend Hst c1 c2 c3.
  destruct (sendHeartbeat_sent c Hconn Hpend) as [He1 Hp1].
  fold c1 in He1, Hp1.
  destruct (sendHeartbeat_sent_frame c Hconn Hpend) as (Hs1 & Ht1 & Hcb1 & _).
  fold c1 in Hs1, Ht1, Hcb1.
  assert (Hconn1 : isConnected c1 = true)
    by (unfold isConnected in *; now rewrite Hs1).
  assert (Hpend1 : truthy (pendingHeartbeatRef c1) = true).
  { rewrite Hp1. simpl.
    apply negb_true_iff, String.eqb_neq, toString_nonempty. }
  assert (Hc2 : c2 = _) by exact (sendHeartbeat_timeout_run c1 Hconn1 Hpend1).
  assert (Hconn2 : isConnected (set_socketState st c2) = false)
    by (unfold isConnected; simpl; now destruct st).
  assert (Hc3 : c3 = _)
    by exact (sendHeartbeat_disconnected_run (set_socketState st c2) Hconn2).
  split; [exact Hp1|]. split; [now rewrite Hc2|].
  split; [rewrite Hc3; simpl; now rewrite Hc2|].
  assert (He3 : effects c3 =
    effects c1 ++
    ([SocketLog "transport"
        "heartbeat timeout. Attempting to re-establish connection";
      HeartbeatCallback HB_timeout] ++
     (if heartbeatCallbackThrows c1 HB_timeout
      then [SocketLog "error" "error in heartbeat callback"] else []) ++
     [SocketDisconnect (Some WS_CLOSE_NORMAL) (Some "heartbeat timeout");
      SetTimeout T_heartbeat_fallback 100]) ++
    HeartbeatCallback HB_disconnected ::
    (if heartbeatCallbackThrows c1 HB_disconnected
     then [SocketLog "error" "error in heartbeat callback"] else [])).
  { rewrite Hc3. simpl. rewrite Hc2. simpl.
    destruct (heartbeatCallbackThrows c1 HB_timeout),
      (heartbeatCallbackThrows c1 HB_disconnected); simpl;
      rewrite <- ?app_assoc; reflexivity. }
  split.
  { unfold count_effects. rewrite He3, He1.
    rewrite !heartbeat_reports_app, !List.filter_app, !length_app.
    destruct (accessToken c), (heartbeatCallbackThrows c HB_sent),
      (heartbeatCallbackThrows c1 HB_timeout),
      (heartbeatCallbackThrows c1 HB_disconnected); simpl;
      rewrite <- ?app_assoc; repeat split; simpl; lia. }
  rewrite Hc3. simpl. rewrite Hc2. simpl. now rewrite Ht1.
Qed.

Lemma unanswered_heartbeat_times_out_once_witness :
  let c := set_socketState Open (new_RealtimeClient false (fun _ => false) None) in
  ref_in_range c /\
  heartbeat_reports
    (effects
       (exec (sendHeartbeat (K := sample_constants))
          (set_socketState Closed
             (exec (sendHeartbeat (K := sample_constants))
                (exec (sendHeartbeat (K := sample_constants)) c)))))
  = [HB_sent; HB_timeout; HB_disconnected].
Proof.
  intros c.
  assert (Hrange : ref_in_range c) by (split; vm_compute; discriminate).
  destruct (unanswered_heartbeat_times_out_once (H := sample_constants)
              c Closed Hrange eq_refl eq_refl ltac:(discriminate))
    as (_ & _ & _ & (Hr & _) & _).
  split; [exact Hrange | exact Hr].
Defined.

(** X10.  A heartbeat callback that throws changes nothing but the log:
    apart from the error lines logged for the callback, [sendHeartbeat]
    makes the same calls and leaves the same client whether the callback
    throws or not. *)
Theorem throwing_callback_never_aborts_heartbeat `{Constants}
    (c : RealtimeClient) (callbackThrows : HeartbeatStatus -> bool) :
  without_callback
    (exec sendHeartbeat (set_heartbeatCallbackThrows callbackThrows c))
  = without_callback
      (exec sendHeartbeat (set_heartbeatCallbackThrows (fun _ => false) c)).
Proof.
  unfold without_callback.
  unfold sendHeartbeat, _setAuthSafely, setAuth, _performAuth, propagate,
    new_promise, _makeRef.
  js_unfold. unfold isConnected. simpl.
  destruct (socketState c); simpl;
    try (destruct (callbackThrows HB_disconnected); simpl; client_eq;
         rewrite !List.filter_app; reflexivity).
  destruct (truthy (pendingHeartbeatRef c)); simpl.
  - destruct (callbackThrows HB_timeout); simpl; client_eq;
      rewrite !List.filter_app; reflexivity.
  - destruct (js_succ (ref c) =? ref c)%Z; simpl;
      destruct (callbackThrows HB_sent); simpl;
      destruct (accessToken c); simpl;
      rewrite ?loose_neq_refl; simpl; client_eq;
      rewrite !List.filter_app; reflexivity.
Qed.

(** ** Heartbeat refs are numbers *)

Lemma sendHeartbeat_keeps_refs_numeric `{Constants} :
  maintains refs_numeric sendHeartbeat.
Proof.
  intros c [Hr HP]. unfold refs_numeric, ref_in_range in *.
  destruct (isConnected c) eqn:Hconn.
  - destruct (truthy (pendingHeartbeatRef c)) eqn:Hpend.
    + rewrite sendHeartbeat_timeout_run by assumption. simpl.
      split; [exact Hr | now left].
    + destruct (sendHeartbeat_sent c Hconn Hpend) as [_ Hp].
      assert (Href : ref (exec sendHeartbeat c) = next_ref (ref c)).
      { unfold sendHeartbeat, _setAuthSafely, setAuth, _performAuth, propagate,
          new_promise, _makeRef, next_ref.
        js_unfold. rewrite Hconn. simpl. rewrite Hpend. simpl.
        destruct (js_succ (ref c) =? ref c)%Z; simpl;
          destruct (heartbeatCallbackThrows c HB_sent); simpl;
          destruct (accessToken c); simpl;
          rewrite ?loose_neq_refl; reflexivity. }
      rewrite Href. split; [now apply next_ref_range|].
      right. eexists. split; [exact Hp|].
      apply toString_numeric. now apply next_ref_range.
  - rewrite sendHeartbeat_disconnected_run by assumption. simpl.
    split; [exact Hr | exact HP].
Qed.

Lemma step_keeps_refs_numeric `{Constants} st :
  maintains refs_numeric (step st).
Proof.
  destruct st;
    try (apply sendHeartbeat_keeps_refs_numeric);
    unfold_methods; unfold_registry;
    repeat maintain_step
      ltac:(intros ? HP;
            first [exact HP
                  | destruct HP as [? ?]; split; [assumption | now left]]).
Qed.

(** X11.  On every client made by the constructor, after any run, the ref
    counter is an integer between 0 and 2^53, and a pending heartbeat ref,
    when there is one, is a non-empty string of decimal digits. *)
Theorem reachable_refs_are_numeric `{Constants} (c : RealtimeClient) :
  reachable c ->
  (0 <= ref c <= MAX_EXACT)%Z
  /\ forall r, pendingHeartbeatRef c = Some r -> numeric r = true.
Proof.
  intros (a & cb & re & steps & ->).
  assert (HP : refs_numeric (run steps (new_RealtimeClient a cb re))).
  { apply (maintains_run refs_numeric); [apply step_keeps_refs_numeric|].
    split; [|now left].
    unfold ref_in_range. simpl. pose proof MAX_EXACT_pos. lia. }
  destruct HP as [Hr HP]. split; [exact Hr|].
  intros r Hp. destruct HP as [HP|(r' & HP & Hn)]; congruence.
Qed.

Lemma reachable_refs_are_numeric_witness :
  let c := run (K := sample_constants)
             [Env_socket Open; Call_sendHeartbeat]
             (new_RealtimeClient false (fun _ => false) None) in
  pendingHeartbeatRef c = Some "1" /\ numeric "1" = true.
Proof.
  intros c. split; [reflexivity|].
  apply (reachable_refs_are_numeric (H := sample_constants) c).
  - exists false, (fun _ => false), None,
      [Env_socket Open; Call_sendHeartbeat]. reflexivity.
  - reflexivity.
Defined.

(** ** The registry: [_remove] and [channel] *)

Lemma remove_topic_absent (l : list RealtimeChannel) t :
  t ∉ map topic l ->
  List.filter (fun x => negb (String.eqb (topic x) t)) l = l.
Proof.
  induction l as [|a l IH]; intros Hn; [reflexivity|].
  simpl in *. apply not_elem_of_cons in Hn as [Ha Hn].
  destruct (String.eqb (topic a) t) eqn:E.
  - apply String.eqb_eq in E. now contradiction Ha.
  - simpl. now rewrite IH.
Qed.

Lemma remove_topic_gone (l : list RealtimeChannel) t :
  t ∉ map topic (List.filter (fun x => negb (String.eqb (topic x) t)) l).
Proof.
  intros Hin. apply list_elem_of_fmap in Hin as (x & -> & Hx).
  apply list_elem_of_In, filter_In in Hx as [_ Hx].
  now rewrite String.eqb_refl in Hx.
Qed.

Lemma sublist_List_filter {A} (f : A -> bool) l : sublist (List.filter f l) l.
Proof.
  induction l as [|a l IH]; simpl; [constructor|].
  destruct (f a); now constructor.
Qed.

(** X12.  [_remove(channel)] takes out of the registry every session with
    the topic of [channel] and nothing else, keeping the order of the
    others; no other field of the client changes.  Removing a topic that is
    not registered changes nothing, and removing twice is removing once. *)
Theorem remove_takes_out_by_topic (c : RealtimeClient)
    (ch : RealtimeChannel) :
  let c' := exec (_remove ch) c in
  c' = set_channels (channels c') c
  /\ (forall x, x ∈ channels c' <-> x ∈ channels c /\ topic x <> topic ch)
  /\ sublist (channels c') (channels c)
  /\ (topic ch ∉ map topic (channels c'))
  /\ (topic ch ∉ map topic (channels c) -> c' = c)
  /\ exec (_remove ch) c' = c'.
Proof.
  intros c'. subst c'. unfold _remove. js_unfold. simpl.
  split; [reflexivity|]. split; [apply elem_of_remove_topic|].
  split; [apply sublist_List_filter|]. split; [apply remove_topic_gone|]. split.
  - intros Hn. rewrite remove_topic_absent by exact Hn. now client_eq.
  - rewrite (remove_topic_absent _ _ (remove_topic_gone (channels c) (topic ch))).
    now client_eq.
Qed.

(** X13.  Creating a channel for a topic that is not registered and then
    removing it gives back the registry as it was. *)
Theorem channel_then_remove_restores_registry `{Constants}
    (c : RealtimeClient) (t : string) (opts : nat) :
  ("realtime:" +:+ t) ∉ map topic (channels c) ->
  let ch := eval (channel t opts) c in
  let c1 := exec (channel t opts) c in
  ch ∈ channels c1
  /\ length (channels c1) = S (length (channels c))
  /\ channels (exec (_remove ch) c1) = channels c.
Proof.
  intros Hn ch c1.
  assert (Hf : List.find (fun x => String.eqb (topic x) ("realtime:" +:+ t))
                         (channels c) = None).
  { destruct (List.find _ (channels c)) as [x|] eqn:Hf; [|reflexivity].
    exfalso. apply find_some in Hf as [Hin Ht]. apply Hn.
    apply String.eqb_eq in Ht. rewrite <- Ht.
    now apply list_elem_of_fmap_2, list_elem_of_In. }
  assert (E : channel t opts c = (ch, c1)) by apply surjective_pairing.
  rewrite (channel_run_new _ _ _ Hf) in E. injection E as Hch Hc1.
  rewrite <- Hc1, <- Hch. simpl. split; [|split].
  - apply elem_of_app. right. apply list_elem_of_here.
  - rewrite length_app. simpl. lia.
  - unfold _remove. js_unfold. simpl. rewrite List.filter_app. simpl.
    rewrite String.eqb_refl. simpl. rewrite app_nil_r.
    now apply remove_topic_absent.
Qed.

Lemma channel_then_remove_restores_registry_witness :
  let c := exec (channel "lobby" 0)
             (new_RealtimeClient false (fun _ => false) None) in
  channels
    (exec (_remove (eval (channel "room" 1) c))
       (exec (channel "room" 1) c))
  = channels c.
Proof.
  intros c.
  apply (channel_then_remove_restores_registry (H := sample_constants)
           c "room" 1).
  simpl. intros Hin. apply list_elem_of_singleton in Hin. discriminate Hin.
Defined.

Lemma find_app_old {A} (f : A -> bool) l k x :
  List.find f l = Some x -> List.find f (l ++ k) = Some x.
Proof.
  induction l as [|a l IH]; simpl; [discriminate|].
  destruct (f a); [trivial | exact IH].
Qed.

Lemma channel_appends `{Constants} t opts c :
  exists added,
    channels (exec (channel t opts) c) = channels c ++ added
    /\ (forall x, x ∈ added -> topic x = "realtime:" +:+ t)
    /\ List.find (fun x => String.eqb (topic x) ("realtime:" +:+ t))
         (channels (exec (channel t opts) c))
       = Some (eval (channel t opts) c)
    /\ length added =
         (if bool_decide (("realtime:" +:+ t) ∈ map topic (channels c))
          then 0 else 1).
Proof.
  unfold exec, eval.
  destruct (List.find (fun x => String.eqb (topic x) ("realtime:" +:+ t))
                      (channels c)) as [ch|] eqn:Hf.
  - rewrite (channel_run_existing _ _ _ _ Hf). exists []. simpl.
    rewrite app_nil_r. split; [reflexivity|].
    split; [intros x Hx; now apply elem_of_nil in Hx|]. split; [exact Hf|].
    rewrite bool_decide_eq_true_2; [reflexivity|].
    apply find_some in Hf as [Hin Ht]. apply String.eqb_eq in Ht.
    rewrite <- Ht. now apply list_elem_of_fmap_2, list_elem_of_In.
  - rewrite (channel_run_new _ _ _ Hf).
    exists [new_RealtimeChannel (allocated c) ("realtime:" +:+ t) opts].
    simpl. split; [reflexivity|]. split.
    + intros x Hx. apply list_elem_of_singleton in Hx. now subst x.
    + split.
      * apply find_app_new; [exact Hf|]. simpl. apply String.eqb_refl.
      * rewrite bool_decide_eq_false_2; [reflexivity|].
        now apply find_none_topic.
Qed.

(** X14.  [channel] only ever appends: the sessions already registered
    stay where they are, and at most one session is added, exactly when the
    namespaced topic was not registered.  Sessions asked for under
    different topics are different sessions, and asking for a second topic
    does not change which session the first topic gives. *)
Theorem channel_keeps_other_sessions `{Constants} (c : RealtimeClient)
    (t1 t2 : string) (opts1 opts2 opts3 : nat) :
  t1 <> t2 ->
  let ch1 := eval (channel t1 opts1) c in
  let c1 := exec (channel t1 opts1) c in
  let ch2 := eval (channel t2 opts2) c1 in
  let c2 := exec (channel t2 opts2) c1 in
  (exists added, channels c1 = channels c ++ added /\ length added <= 1)
  /\ (length (channels c1) = length (channels c)
      <-> ("realtime:" +:+ t1) ∈ map topic (channels c))
  /\ topic ch1 <> topic ch2
  /\ ch1 <> ch2
  /\ eval (channel t1 opts3) c2 = ch1.
Proof.
  intros Hne ch1 c1 ch2 c2.
  destruct (channel_appends t1 opts1 c) as (a1 & Ha1 & _ & Hf1 & Hl1).
  destruct (channel_appends t2 opts2 c1) as (a2 & Ha2 & _ & Hf2 & _).
  fold c1 in Ha1, Hf1. fold ch1 in Hf1. fold c2 in Ha2, Hf2. fold ch2 in Hf2.
  assert (Ht1 : topic ch1 = "realtime:" +:+ t1)
    by (apply find_some in Hf1 as [_ E]; now apply String.eqb_eq in E).
  assert (Ht2 : topic ch2 = "realtime:" +:+ t2)
    by (apply find_some in Hf2 as [_ E]; now apply String.eqb_eq in E).
  assert (Htop : topic ch1 <> topic ch2).
  { rewrite Ht1, Ht2. intros E. apply Hne. now injection E. }
  split.
  { exists a1. split; [exact Ha1|]. rewrite Hl1. case_bool_decide; lia. }
  split.
  { rewrite Ha1, length_app, Hl1. case_bool_decide; simpl; split; intros; (lia || tauto). }
  split; [exact Htop|]. split; [intros E; apply Htop; now rewrite E|].
  assert (Hf : List.find (fun x => String.eqb (topic x) ("realtime:" +:+ t1))
                         (channels c2) = Some ch1).
  { rewrite Ha2. now apply find_app_old. }
  unfold eval. now rewrite (channel_run_existing _ _ _ _ Hf).
Qed.

Lemma channel_keeps_other_sessions_witness :
  let c := new_RealtimeClient false (fun _ => false) None in
  eval (channel "a" 2)
    (exec (channel "b" 1)
       (exec (channel "a" 0) c))
  = eval (channel "a" 0) c.
Proof.
  intros c.
  apply (channel_keeps_other_sessions (H := sample_constants)
           c "a" "b" 0 1 2).
  discriminate.
Defined.

(** ** Channel options: what the merge keeps *)

Lemma translate_run (h : gmap nat Object) (options : nat) (config : option nat) :
  h !! options = Some (O_options config) ->
  translateRealtimeOptionsToChannelParams options h =
    Some (options,
          <[options := O_options (Some (fresh (dom h)))]>
            (<[fresh (dom h) :=
                 O_config (object_spread default_config
                             (spread_config h config))]> h)).
Proof.
  intros Ho. unfold translateRealtimeOptionsToChannelParams. now rewrite Ho.
Qed.

Lemma fresh_address_free (h : gmap nat Object) : h !! fresh (dom h) = None.
Proof. apply not_elem_of_dom, is_fresh. Qed.

(** X15.  After the translation the config of the options has the three
    default keys and every key of the caller's config, each caller entry
    with the caller's value, and nothing else.  The caller's old config
    object is not written to: only the [config] property of the options
    object is replaced. *)
Theorem translate_keeps_caller_entries (h : gmap nat Object) (options : nat)
    (config : option nat) :
  h !! options = Some (O_options config) ->
  exists a h' merged,
    translateRealtimeOptionsToChannelParams options h = Some (options, h')
    /\ h' !! options = Some (O_options (Some a))
    /\ h' !! a = Some (O_config merged)
    /\ dom merged =
         dom (spread_config h config) ∪
         ({["broadcast"]} ∪ {["presence"]} ∪ {["private"]} : gset string)
    /\ (forall k v, spread_config h config !! k = Some v -> merged !! k = Some v)
    /\ (forall k, spread_config h config !! k = None ->
                  merged !! k = default_config !! k)
    /\ (forall old entries, config = Some old ->
          h !! old = Some (O_config entries) ->
          h' !! old = Some (O_config entries)).
Proof.
  intros Ho.
  pose proof (fresh_address_free h) as Ha.
  exists (fresh (dom h)),
    (<[options := O_options (Some (fresh (dom h)))]>
       (<[fresh (dom h) :=
            O_config (object_spread default_config
                        (spread_config h config))]> h)),
    (object_spread default_config (spread_config h config)).
  split; [exact (translate_run _ _ _ Ho)|].
  assert (Hne : options <> fresh (dom h))
    by (intros E; rewrite <- E, Ho in Ha; discriminate).
  split; [apply lookup_insert_eq|]. split.
  { rewrite lookup_insert_ne by exact Hne. apply lookup_insert_eq. }
  split.
  { unfold object_spread, default_config. rewrite dom_union_L.
    rewrite !dom_insert_L, dom_empty_L. set_solver. }
  split.
  { intros k v Hk. now rewrite object_spread_lookup, Hk. }
  split.
  { intros k Hk. now rewrite object_spread_lookup, Hk. }
  intros old entries _ Hold.
  rewrite lookup_insert_ne by (intros E; subst old; congruence).
  rewrite lookup_insert_ne by (intros E; subst old; congruence).
  exact Hold.
Qed.

Lemma translate_keeps_caller_entries_witness :
  let h : gmap nat Object :=
    <[0 := O_options (Some 1)]>
      (<[1 := O_config (<["private" := V_bool true]> ∅)]> ∅) in
  exists a h' merged,
    translateRealtimeOptionsToChannelParams 0 h = Some (0, h')
    /\ h' !! a = Some (O_config merged)
    /\ merged !! "private" = Some (V_bool true)
    /\ h' !! 1 = Some (O_config (<["private" := V_bool true]> ∅)).
Proof.
  intros h.
  destruct (translate_keeps_caller_entries h 0 (Some 1) eq_refl)
    as (a & h' & merged & Ht & _ & Hm & _ & Hk & _ & Hold).
  exists a, h', merged. split; [exact Ht|]. split; [exact Hm|]. split.
  - apply Hk. reflexivity.
  - apply (Hold 1); reflexivity.
Defined.

Lemma object_spread_defaults_twice (m : gmap string JsValue) :
  object_spread default_config (object_spread default_config m)
  = object_spread default_config m.
Proof.
  apply map_eq. intros k. rewrite !object_spread_lookup.
  destruct (m !! k); [reflexivity|]. now destruct (default_config !! k).
Qed.

(** X16.  Translating the same options object a second time gives it a
    config with the same entries as the first time: the defaults are
    merged once and for all.  The config is nevertheless a new object each
    time. *)
Theorem translate_twice_same_config (h : gmap nat Object) (options : nat)
    (config : option nat) :
  h !! options = Some (O_options config) ->
  exists a1 h1 a2 h2 merged,
    translateRealtimeOptionsToChannelParams options h = Some (options, h1)
    /\ translateRealtimeOptionsToChannelParams options h1 = Some (options, h2)
    /\ h1 !! options = Some (O_options (Some a1))
    /\ h2 !! options = Some (O_options (Some a2))
    /\ a1 <> a2
    /\ h1 !! a1 = Some (O_config merged)
    /\ h2 !! a1 = Some (O_config merged)
    /\ h2 !! a2 = Some (O_config merged).
Proof.
  intros Ho.
  pose proof (fresh_address_free h) as Ha.
  set (a1 := fresh (dom h)) in *.
  set (merged := object_spread default_config (spread_config h config)).
  set (h1 := <[options := O_options (Some a1)]> (<[a1 := O_config merged]> h)).
  assert (Hne : options <> a1)
    by (intros E; rewrite <- E, Ho in Ha; discriminate).
  assert (Ho1 : h1 !! options = Some (O_options (Some a1)))
    by apply lookup_insert_eq.
  assert (Ha1 : h1 !! a1 = Some (O_config merged)).
  { unfold h1. rewrite lookup_insert_ne by exact Hne. apply lookup_insert_eq. }
  pose proof (fresh_address_free h1) as Ha2.
  set (a2 := fresh (dom h1)) in *.
  assert (Hs : spread_config h1 (Some a1) = merged)
    by (unfold spread_config; now rewrite Ha1).
  exists a1, h1, a2,
    (<[options := O_options (Some a2)]>
       (<[a2 := O_config (object_spread default_config
                            (spread_config h1 (Some a1)))]> h1)),
    merged.
  split; [exact (translate_run _ _ _ Ho)|].
  split; [exact (translate_run _ _ _ Ho1)|].
  split; [exact Ho1|]. split; [apply lookup_insert_eq|].
  assert (Hne12 : a1 <> a2)
    by (intros E; rewrite <- E, Ha1 in Ha2; discriminate).
  assert (Hne2 : options <> a2)
    by (intros E; rewrite <- E, Ho1 in Ha2; discriminate).
  split; [exact Hne12|]. split; [exact Ha1|]. split.
  - rewrite lookup_insert_ne by exact Hne.
    rewrite lookup_insert_ne by congruence. exact Ha1.
  - rewrite lookup_insert_ne by exact Hne2. rewrite lookup_insert_eq.
    rewrite Hs. unfold merged. now rewrite object_spread_defaults_twice.
Qed.

Lemma translate_twice_same_config_witness :
  let h : gmap nat Object := <[0 := O_options None]> ∅ in
  exists a1 h1 a2 h2,
    translateRealtimeOptionsToChannelParams 0 h = Some (0, h1)
    /\ translateRealtimeOptionsToChannelParams 0 h1 = Some (0, h2)
    /\ h2 !! a2 = h1 !! a1.
Proof.
  intros h.
  destruct (translate_twice_same_config h 0 None eq_refl)
    as (a1 & h1 & a2 & h2 & merged & H1 & H2 & _ & _ & _ & Hm1 & _ & Hm2).
  exists a1, h1, a2, h2. split; [exact H1|]. split; [exact H2|].
  now rewrite Hm1, Hm2.
Defined.

(** ** The constructor *)

Section ConstructorProperties.
Variable DEFAULT_TIMEOUT : Z.

(** The API key the constructor looks for: [options?.params?.apikey]. *)
Let apikey_of (options : option RealtimeClientOptions) : option string :=
  (options ≫= o_params) ≫= (fun params : gmap string string => params !! "apikey").

(** X17.  The constructor throws "API key is required" exactly when the
    options, their [params], or the [apikey] entry are missing or the key
    is the empty string, and this check comes before any other.  With a
    key it throws "Web Worker is not supported" exactly when a worker is
    asked for in a window that has none; in every other case it
    succeeds. *)
Theorem constructor_requires_api_key (w : Window)
    (options : option RealtimeClientOptions) :
  (constructor DEFAULT_TIMEOUT w options = inl API_key_is_required
   <-> truthy (apikey_of options) = false)
  /\ (constructor DEFAULT_TIMEOUT w options = inl Web_Worker_is_not_supported
      <-> truthy (apikey_of options) = true
          /\ options ≫= o_worker = Some true
          /\ w = WindowWithoutWorker)
  /\ (is_Some (apikey_of options) -> apikey_of options <> Some "" ->
      (options ≫= o_worker = Some true -> w <> WindowWithoutWorker) ->
      exists settings client,
        constructor DEFAULT_TIMEOUT w options = inr (settings, client))
  /\ constructor DEFAULT_TIMEOUT w None = inl API_key_is_required.
Proof.
  unfold constructor, _initializeOptions. fold (apikey_of options).
  destruct (truthy (apikey_of options)) eqn:Hk.
  - destruct (options ≫= o_worker) as [[|]|] eqn:Hw; simpl;
      destruct w; simpl;
      (split; [split; [discriminate | discriminate]|]);
      (split; [split; [try discriminate; try (intros _; repeat split; reflexivity)
                      | intros (_ & Hx & Hy); try discriminate; reflexivity]|]);
      (split; [|reflexivity]);
      intros _ _ Hok; try (now eexists _, _);
      exfalso; now apply Hok.
  - split; [split; reflexivity|].
    split; [split; [discriminate | intros (Hx & _); discriminate]|].
    split; [|reflexivity].
    intros [k Hs] Hne _. exfalso. rewrite Hs in Hk, Hne. simpl in Hk.
    apply negb_false_iff, String.eqb_eq in Hk. now subst k.
Qed.

End ConstructorProperties.

Section ConstructorSettings.
Variable DEFAULT_TIMEOUT : Z.

Lemma constructor_success (w : Window) (options : option RealtimeClientOptions)
    settings client :
  constructor DEFAULT_TIMEOUT w options = inr (settings, client) ->
  exists o params key,
    options = Some o /\ o_params o = Some params
    /\ params !! "apikey" = Some key /\ key <> ""
    /\ _initializeOptions DEFAULT_TIMEOUT w (Some key) options = inr settings
    /\ client = new_RealtimeClient (o_accessToken o)
                  (default (fun _ => false) (o_heartbeatCallback o))
                  (o_reconnectAfterMs o).
Proof.
  unfold constructor. destruct options as [o|]; simpl; [|discriminate].
  destruct (o_params o) as [params|] eqn:Hp; simpl; [|discriminate].
  destruct (params !! "apikey") as [key|] eqn:Hk; simpl; [|discriminate].
  destruct (String.eqb key "") eqn:He; simpl; [discriminate|].
  apply String.eqb_neq in He.
  destruct (_initializeOptions DEFAULT_TIMEOUT w (Some key) (Some o))
    as [e|s] eqn:Hi; [discriminate|].
  intros [= <- <-]. exists o, params, key. repeat split; assumption.
Qed.

(** X18.  When the constructor succeeds the API key is the non-empty
    [apikey] of the params and stays in the client's params.  The log
    level is [logLevel] when given and [log_level] otherwise; when either
    is given the client's params are the caller's with [log_level] set to
    that level, overriding a [log_level] the caller put in the params; when
    neither is given the params are the caller's as they are. *)
Theorem constructor_keeps_key_and_sets_log_level (w : Window)
    (options : option RealtimeClientOptions) (settings : Settings)
    (client : RealtimeClient) :
  constructor DEFAULT_TIMEOUT w options = inr (settings, client) ->
  exists o params key,
    options = Some o /\ o_params o = Some params
    /\ params !! "apikey" = Some key /\ key <> ""
    /\ s_apiKey settings = Some key
    /\ s_params settings !! "apikey" = Some key
    /\ s_logLevel settings = or_level (o_logLevel o) (o_log_level o)
    /\ (forall l, o_logLevel o = Some l -> s_logLevel settings = Some l)
    /\ (forall l, s_logLevel settings = Some l ->
          s_params settings = <["log_level" := LogLevel_string l]> params)
    /\ (s_logLevel settings = None -> s_params settings = params)
    /\ (forall k, k <> "log_level" -> s_params settings !! k = params !! k).
Proof.
  intros Hc.
  destruct (constructor_success _ _ _ _ Hc)
    as (o & params & key & -> & Hp & Hk & Hne & Hi & _).
  exists o, params, key.
  do 4 (split; [first [reflexivity | assumption]|]).
  unfold _initializeOptions in Hi. simpl in Hi. rewrite Hp in Hi. simpl in Hi.
  assert (Hs : s_apiKey settings = Some key
          /\ s_logLevel settings = or_level (o_logLevel o) (o_log_level o)
          /\ s_params settings =
               match or_level (o_logLevel o) (o_log_level o) with
               | Some l => <["log_level" := LogLevel_string l]> params
               | None => params
               end).
  { destruct (default false (o_worker o)); [destruct w|];
      try discriminate; injection Hi as <-; repeat split. }
  destruct Hs as (Ha & Hl & Hps).
  split; [exact Ha|]. split.
  { rewrite Hps. destruct (or_level _ _); [|exact Hk].
    rewrite lookup_insert_ne by discriminate. exact Hk. }
  split; [exact Hl|]. split.
  { intros l Ho. rewrite Hl, Ho. reflexivity. }
  split.
  { intros l Hsl. rewrite Hps, <- Hl, Hsl. reflexivity. }
  split.
  { intros Hsl. rewrite Hps, <- Hl, Hsl. reflexivity. }
  intros k Hkne. rewrite Hps. destruct (or_level _ _); [|reflexivity].
  now rewrite lookup_insert_ne by congruence.
Qed.

(** X19.  When the constructor succeeds, an option that is given is taken
    as it is, also when it is 0 or [false], and only a missing option gets
    its default: 25000 ms for the heartbeat interval, [DEFAULT_TIMEOUT]
    for the timeout, no worker.  The worker URL is kept only when a worker
    is asked for.  The client starts with a closed transport, no channel,
    no token, counter 0 and nothing pending, and has made no call. *)
Theorem constructor_defaults_only_missing_options (w : Window)
    (options : option RealtimeClientOptions) (settings : Settings)
    (client : RealtimeClient) :
  constructor DEFAULT_TIMEOUT w options = inr (settings, client) ->
  exists o,
    options = Some o
    /\ s_heartbeatIntervalMs settings = default 25000%Z (o_heartbeatIntervalMs o)
    /\ s_timeout settings = default DEFAULT_TIMEOUT (o_timeout o)
    /\ s_worker settings = default false (o_worker o)
    /\ s_workerUrl settings = (if s_worker settings then o_workerUrl o else None)
    /\ (forall v, o_heartbeatIntervalMs o = Some v ->
                  s_heartbeatIntervalMs settings = v)
    /\ reconnectAfterMs client =
         default default_reconnectAfterMs (o_reconnectAfterMs o)
    /\ accessToken client = o_accessToken o
    /\ (o_heartbeatCallback o = None ->
        forall st, heartbeatCallbackThrows client st = false)
    /\ socketState client = Closed /\ channels client = []
    /\ accessTokenValue client = None /\ ref client = 0%Z
    /\ pendingHeartbeatRef client = None /\ _authPromise client = None
    /\ effects client = [].
Proof.
  intros Hc.
  destruct (constructor_success _ _ _ _ Hc)
    as (o & params & key & -> & Hp & Hk & Hne & Hi & ->).
  exists o. split; [reflexivity|].
  unfold _initializeOptions in Hi. simpl in Hi.
  assert (Hs : s_heartbeatIntervalMs settings
                 = default 25000%Z (o_heartbeatIntervalMs o)
          /\ s_timeout settings = default DEFAULT_TIMEOUT (o_timeout o)
          /\ s_worker settings = default false (o_worker o)
          /\ s_workerUrl settings
               = (if s_worker settings then o_workerUrl o else None)).
  { destruct (default false (o_worker o)); [destruct w|];
      try discriminate; injection Hi as <-; repeat split. }
  destruct Hs as (Hh & Ht & Hw & Hu).
  split; [exact Hh|]. split; [exact Ht|]. split; [exact Hw|].
  split; [exact Hu|]. split.
  { intros v Hv. now rewrite Hh, Hv. }
  split; [reflexivity|]. split; [reflexivity|]. split.
  { intros Hcb st. simpl. now rewrite Hcb. }
  repeat split.
Qed.

End ConstructorSettings.

Lemma constructor_keeps_key_and_sets_log_level_witness :
  exists settings client,
    constructor 10000 NoWindow (Some sample_options) = inr (settings, client)
    /\ s_apiKey settings = Some "k"
    /\ s_params settings !! "log_level" = Some "error".
Proof.
  destruct (constructor 10000 NoWindow (Some sample_options))
    as [e|[settings client]] eqn:Hc; [discriminate Hc|].
  exists settings, client. split; [reflexivity|].
  destruct (constructor_keeps_key_and_sets_log_level 10000 NoWindow
              (Some sample_options) settings client Hc)
    as (o & params & key & Ho & Hp & Hk & _ & Ha & _ & Hl & _ & Hps & _).
  injection Ho as <-. simpl in Hp. injection Hp as <-.
  split.
  - rewrite Ha, <- Hk. reflexivity.
  - rewrite (Hps L_error) by (rewrite Hl; reflexivity).
    now rewrite lookup_insert_eq.
Defined.

Lemma constructor_defaults_only_missing_options_witness :
  exists settings client,
    constructor 10000 NoWindow (Some sample_options) = inr (settings, client)
    /\ s_heartbeatIntervalMs settings = 0%Z
    /\ s_workerUrl settings = None.
Proof.
  destruct (constructor 10000 NoWindow (Some sample_options))
    as [e|[settings client]] eqn:Hc; [discriminate Hc|].
  exists settings, client. split; [reflexivity|].
  destruct (constructor_defaults_only_missing_options 10000 NoWindow
              (Some sample_options) settings client Hc)
    as (o & Ho & Hh & _ & Hw & Hu & _).
  injection Ho as <-. split; [exact Hh|]. rewrite Hu, Hw. reflexivity.
Defined.

(** ** The presence relay *)

(** X20.  The presence relay forwards every callback of the upstream feed
    as one ['presence'] event of the channel whose [event] says which
    callback it was, and loses nothing on the way: two different callbacks
    never give the same event, a join or leave can be read back from its
    event, and a sync carries no key and no presences. *)
Theorem presence_relay_loses_nothing (Presence : Type)
    (cb1 cb2 : PresenceCallback Presence) :
  (presence_trigger Presence cb1).1 = "presence"
  /\ (presence_trigger Presence cb1 = presence_trigger Presence cb2 -> cb1 = cb2)
  /\ (forall key current new,
        cb1 = OnJoin Presence key current new <->
        (presence_trigger Presence cb1).2 =
          {| pp_event := JOIN; pp_key := Some key;
             pp_currentPresences := Some current;
             pp_newPresences := Some new; pp_leftPresences := None |})
  /\ (forall key current gone,
        cb1 = OnLeave Presence key current gone <->
        (presence_trigger Presence cb1).2 =
          {| pp_event := LEAVE; pp_key := Some key;
             pp_currentPresences := Some current;
             pp_newPresences := None; pp_leftPresences := Some gone |})
  /\ (pp_event Presence (presence_trigger Presence cb1).2 = SYNC <->
      cb1 = OnSync Presence)
  /\ (cb1 = OnSync Presence ->
      pp_key Presence (presence_trigger Presence cb1).2 = None
      /\ pp_currentPresences Presence (presence_trigger Presence cb1).2 = None).
Proof.
  split; [now destruct cb1|]. split.
  { destruct cb1, cb2; simpl; intros E; try discriminate E;
      try reflexivity; injection E as -> -> ->; reflexivity. }
  split.
  { intros key current new. split.
    - intros ->. reflexivity.
    - destruct cb1; simpl; intros E; try discriminate E.
      injection E as -> -> ->. reflexivity. }
  split.
  { intros key current gone. split.
    - intros ->. reflexivity.
    - destruct cb1; simpl; intros E; try discriminate E.
      injection E as -> -> ->. reflexivity. }
  split.
  { split; [now destruct cb1 | now intros ->]. }
  intros ->. split; reflexivity.
Qed.

(** ** An explicit token, end to end *)

Lemma count_pushes_auth `{Constants} tokenToSend chs :
  length (List.filter is_ChannelPush
            (flat_map (auth_channel_effects tokenToSend) chs))
  = length (List.filter joinedOnce chs).
Proof.
  induction chs as [|ch chs IH]; [reflexivity|].
  simpl. rewrite List.filter_app, length_app, IH.
  unfold auth_channel_effects.
  destruct tokenToSend as [t|]; [destruct (truthy (Some t))|];
    destruct (joinedOnce ch); reflexivity.
Qed.

Lemma setAuth_token_run `{Constants} token caller c cp :
  truthy token = true ->
  cp = exec (propagate token) c ->
  exec (setAuth token caller) c =
    set_awaiting (awaiting c ++ [(length (promises c), K_setAuth caller)])
      (set_authPromise (Some (length (promises c)))
         (set_promises (promises c ++ [Settled Fulfilled]) cp)).
Proof.
  intros Htr Hcp.
  destruct (propagate_frame token c) as (_ & _ & Ha & _).
  rewrite <- Hcp in Ha.
  unfold exec. rewrite setAuth_run. unfold eval, exec.
  rewrite _performAuth_run, Htr. cbn [fst snd].
  change ((propagate token c).2) with (exec (propagate token) c).
  rewrite <- Hcp. apply client_ext; simpl; rewrite ?Ha; reflexivity.
Qed.

Lemma pushes_auth `{Constants} tokenToSend chs :
  List.filter is_ChannelPush (flat_map (auth_channel_effects tokenToSend) chs)
  = map (fun ch => ChannelPush (chan_id ch) CHANNEL_EVENTS_access_token
                     tokenToSend)
        (List.filter joinedOnce chs).
Proof.
  induction chs as [|ch chs IH]; [reflexivity|].
  simpl. rewrite List.filter_app, IH.
  unfold auth_channel_effects.
  destruct tokenToSend as [t|]; [destruct (truthy (Some t))|];
    destruct (joinedOnce ch); reflexivity.
Qed.

Lemma count_pushes_on `{Constants} tokenToSend chs id :
  length (List.filter (is_push_on id)
            (flat_map (auth_channel_effects tokenToSend) chs))
  = length (List.filter
              (fun ch => (chan_id ch =? id)%nat && joinedOnce ch) chs).
Proof.
  induction chs as [|ch chs IH]; [reflexivity|].
  simpl. rewrite List.filter_app, length_app, IH.
  unfold auth_channel_effects.
  destruct tokenToSend as [t|]; [destruct (truthy (Some t))|];
    destruct (joinedOnce ch); simpl;
    destruct (chan_id ch =? id)%nat; reflexivity.
Qed.

Lemma none_joined_by_id (chs : list RealtimeChannel) id :
  (id ∉ map chan_id chs) ->
  List.filter (fun x => (chan_id x =? id)%nat && joinedOnce x) chs = [].
Proof.
  induction chs as [|a l IH]; intros Hid; [reflexivity|].
  simpl in *. apply not_elem_of_cons in Hid as [Hne Hid].
  destruct (Nat.eqb_spec (chan_id a) id) as [E|_]; [now destruct Hne|].
  simpl. now apply IH.
Qed.

Lemma count_joined_by_id (chs : list RealtimeChannel) ch :
  NoDup (map chan_id chs) ->
  ch ∈ chs ->
  length (List.filter
            (fun x => (chan_id x =? chan_id ch)%nat && joinedOnce x) chs)
  = if joinedOnce ch then 1 else 0.
Proof.
  induction chs as [|a l IH]; intros Hnd Hin.
  - now apply elem_of_nil in Hin.
  - simpl in Hnd. apply NoDup_cons in Hnd as [Ha Hnd].
    apply elem_of_cons in Hin as [->|Hin].
    + simpl. rewrite Nat.eqb_refl, (none_joined_by_id l _ Ha). simpl.
      now destruct (joinedOnce a).
    + simpl. destruct (Nat.eqb_spec (chan_id a) (chan_id ch)) as [E|_].
      * exfalso. apply Ha. rewrite E. now apply list_elem_of_fmap_2.
      * simpl. now apply IH.
Qed.

Lemma channel_keeps_unique_ids `{Constants} t opts :
  maintains unique_ids (channel t opts).
Proof.
  intros c [Hnd Hlt]. unfold exec.
  destruct (List.find (fun x => String.eqb (topic x) ("realtime:" +:+ t))
                      (channels c)) as [ch|] eqn:Hf.
  - now rewrite (channel_run_existing _ _ _ _ Hf).
  - rewrite (channel_run_new _ _ _ Hf). unfold unique_ids. simpl. split.
    + rewrite map_app. apply NoDup_app. split; [exact Hnd|]. split.
      * intros x Hx Hin. simpl in Hin. apply list_elem_of_singleton in Hin.
        subst x. apply list_elem_of_fmap in Hx as (ch & Hid & Hch).
        apply Hlt in Hch. lia.
      * apply NoDup_singleton.
    + intros ch Hch. apply elem_of_app in Hch as [Hch|Hch].
      * apply Hlt in Hch. lia.
      * apply list_elem_of_singleton in Hch. subst ch. simpl. lia.
Qed.

Lemma _remove_keeps_unique_ids `{Constants} ch :
  maintains unique_ids (_remove ch).
Proof.
  intros c [Hnd Hlt]. unfold unique_ids. simpl. split.
  - induction (channels c) as [|a l IH]; simpl; [constructor|].
    simpl in Hnd. apply NoDup_cons in Hnd as [Ha Hnd].
    assert (IH' := IH Hnd (fun x Hx => Hlt x (list_elem_of_further _ _ _ Hx))).
    destruct (negb (String.eqb (topic a) (topic ch))); simpl; [|exact IH'].
    apply NoDup_cons. split; [|exact IH'].
    intros Hin. apply Ha.
    apply list_elem_of_fmap in Hin as (x & Hx & Hin).
    apply elem_of_remove_topic in Hin as [Hin _].
    rewrite Hx. now apply list_elem_of_fmap_2.
  - intros x Hx. apply elem_of_remove_topic in Hx as [Hx _]. now apply Hlt.
Qed.

Lemma propagate_keeps_unique_ids `{Constants} tokenToSend :
  maintains unique_ids (propagate tokenToSend).
Proof.
  intros c [Hnd Hlt]. rewrite propagate_run.
  destruct (loose_neq (accessTokenValue c) tokenToSend); [|now split].
  assert (Hid : forall ch, chan_id (auth_channel_result tokenToSend ch)
                           = chan_id ch).
  { intros ch. unfold auth_channel_result.
    destruct tokenToSend; [destruct (truthy _)|]; reflexivity. }
  unfold unique_ids. simpl. split.
  - rewrite map_map. erewrite map_ext; [exact Hnd | exact Hid].
  - intros x Hx. apply list_elem_of_fmap in Hx as (ch & -> & Hch).
    rewrite Hid. now apply Hlt.
Qed.

Lemma channel_joined_keeps_unique_ids `{Constants} id :
  maintains unique_ids (channel_joined id).
Proof.
  intros c [Hnd Hlt]. unfold unique_ids. simpl. split.
  - rewrite map_map. erewrite map_ext; [exact Hnd|].
    intros ch. simpl. now destruct (chan_id ch =? id)%nat.
  - intros x Hx. apply list_elem_of_fmap in Hx as (ch & -> & Hch).
    apply Hlt in Hch. now destruct (chan_id ch =? id)%nat.
Qed.

Lemma step_keeps_unique_ids `{Constants} st :
  maintains unique_ids (step st).
Proof.
  destruct st; unfold_methods;
    repeat first
      [ apply channel_keeps_unique_ids
      | apply _remove_keeps_unique_ids
      | apply propagate_keeps_unique_ids
      | apply channel_joined_keeps_unique_ids
      | maintain_step ltac:(intros ? HP;
          first [exact HP
                | split; [apply NoDup_nil_2 | intros ? Hx; inversion Hx]]) ].
Qed.

Lemma reachable_unique_ids `{Constants} c : reachable c -> unique_ids c.
Proof.
  intros (a & cb & re & steps & ->).
  apply (maintains_run unique_ids); [apply step_keeps_unique_ids|].
  split; [apply NoDup_nil_2 | intros ? Hx; inversion Hx].
Qed.

(** X21.  [setAuth(token)] with a non-empty token that is not the stored
    one, followed by the resumption of the call: the token is stored, the
    join payload of every registered channel carries it, the auth pushes
    made are one on each channel that has joined, in registration order
    and each carrying the token, and none on a channel that has not; the
    [accessToken] callback was not called, and [_authPromise] is clear
    again with no call left waiting.  The channels of the registry are
    distinct objects on every client made by the constructor, and then each
    joined channel got exactly one push and each other channel none. *)
Theorem setAuth_with_token_reaches_every_channel `{Constants}
    (c : RealtimeClient) (t : string) (caller : option string) :
  t <> "" ->
  accessTokenValue c <> Some t ->
  let c1 := exec (setAuth (Some t) caller) c in
  let c2 := exec (resume (length (awaiting c))) c1 in
  accessTokenValue c2 = Some t
  /\ map joinPayload (channels c2) =
       map (fun _ => Some {| jp_access_token := t;
                             jp_version := DEFAULT_VERSION |}) (channels c)
  /\ map topic (channels c2) = map topic (channels c)
  /\ count_effects is_ChannelPush c2 =
       count_effects is_ChannelPush c + length (List.filter joinedOnce (channels c))
  /\ count_effects is_AccessTokenCall c2 = count_effects is_AccessTokenCall c
  /\ _authPromise c1 = Some (length (promises c))
  /\ _authPromise c2 = None
  /\ awaiting c2 = awaiting c
  /\ List.filter is_ChannelPush (drop (length (effects c)) (effects c2))
     = map (fun ch => ChannelPush (chan_id ch) CHANNEL_EVENTS_access_token
                        (Some t))
           (List.filter joinedOnce (channels c))
  /\ (unique_ids c ->
      forall ch, ch ∈ channels c ->
        length (List.filter (is_push_on (chan_id ch))
                  (drop (length (effects c)) (effects c2)))
        = if joinedOnce ch then 1 else 0)
  /\ (reachable c -> unique_ids c).
Proof.
  intros Ht Hne c1 c2.
  assert (Htr : truthy (Some t) = true)
    by (simpl; now apply negb_true_iff, String.eqb_neq).
  assert (Hc1 : c1 =
    set_awaiting (awaiting c ++ [(length (promises c), K_setAuth caller)])
      (set_authPromise (Some (length (promises c)))
         (set_promises (promises c ++ [Settled Fulfilled])
            (exec (propagate (Some t)) c)))).
  { subst c1. now apply setAuth_token_run. }
  assert (Hprop : exec (propagate (Some t)) c = _) by apply propagate_run.
  rewrite loose_neq_true in Hprop by exact Hne.
  assert (Hwait : awaiting c1 !! length (awaiting c)
                  = Some (length (promises c), K_setAuth caller)).
  { rewrite Hc1. simpl. rewrite lookup_app_r by lia. now rewrite Nat.sub_diag. }
  assert (Hset : promises c1 !! length (promises c) = Some (Settled Fulfilled)).
  { rewrite Hc1. simpl. rewrite lookup_app_r by lia. now rewrite Nat.sub_diag. }
  assert (Hc2 : c2 = set_authPromise None
                       (set_awaiting (delete (length (awaiting c)) (awaiting c1)) c1)).
  { subst c2. unfold resume. js_unfold. rewrite Hwait, Hset. reflexivity. }
  assert (Hdel : delete (length (awaiting c)) (awaiting c1) = awaiting c).
  { rewrite Hc1. simpl. clear.
    induction (awaiting c) as [|a l IH]; [reflexivity|]. simpl. now rewrite IH. }
  rewrite Hc2. unfold count_effects. simpl. rewrite Hdel, Hc1. simpl.
  rewrite Hprop. simpl.
  split; [reflexivity|]. split.
  { rewrite map_map. apply map_ext. intros ch.
    unfold auth_channel_result. now rewrite Htr. }
  split.
  { rewrite map_map. apply map_ext. intros ch.
    unfold auth_channel_result. now rewrite Htr. }
  split.
  { rewrite List.filter_app, length_app. f_equal.
    apply (count_pushes_auth (Some t)). }
  split.
  { rewrite List.filter_app, length_app.
    match goal with |- _ + ?x = _ => replace x with 0; [lia|] end.
    symmetry.
    exact (f_equal length
             (auth_channel_effects_no_provider_call (Some t) (channels c))). }
  split; [reflexivity|]. split; [reflexivity|]. split; [reflexivity|].
  rewrite drop_app_length.
  split; [exact (pushes_auth (Some t) (channels c))|]. split.
  - intros [Hnd _] ch Hch.
    change (length
              (List.filter (is_push_on (chan_id ch))
                 (flat_map (auth_channel_effects (Some t)) (channels c)))
            = (if joinedOnce ch then 1 else 0)).
    rewrite count_pushes_on. now apply count_joined_by_id.
  - apply reachable_unique_ids.
Qed.

Lemma setAuth_with_token_reaches_every_channel_witness :
  let c := run (K := sample_constants)
             [Call_channel "a" 0; Call_channel "b" 1; Env_joined 0]
             (new_RealtimeClient false (fun _ => false) None) in
  let c2 := exec (resume (K := sample_constants) 0)
              (exec (setAuth (K := sample_constants) (Some "jwt") None) c) in
  "jwt" <> ""
  /\ accessTokenValue c <> Some "jwt"
  /\ map chan_id (channels c) = [0; 1]
  /\ map joinedOnce (channels c) = [true; false]
  /\ count_effects is_ChannelPush c2 = 1
  /\ List.filter is_ChannelPush (effects c2)
     = [ChannelPush 0 "access_token" (Some "jwt")]
  /\ length (List.filter (is_push_on 0) (effects c2)) = 1
  /\ length (List.filter (is_push_on 1) (effects c2)) = 0.
Proof.
  intros c c2.
  assert (Ht : "jwt" <> "") by discriminate.
  assert (Hne : accessTokenValue c <> Some "jwt") by discriminate.
  destruct (setAuth_with_token_reaches_every_channel (H := sample_constants)
              c "jwt" None Ht Hne)
    as (_ & _ & _ & Hn & _ & _ & _ & _ & Hpushes & Hper & Hids).
  assert (Hu : unique_ids c).
  { apply Hids. exists false, (fun _ => false), None,
      [Call_channel "a" 0; Call_channel "b" 1; Env_joined 0]. reflexivity. }
  split; [exact Ht|]. split; [exact Hne|].
  split; [reflexivity|]. split; [reflexivity|].
  split; [exact Hn|]. split; [exact Hpushes|].
  set (a := {| chan_id := 0; topic := "realtime:a"; params := 0;
               joinedOnce := true; joinPayload := None |}).
  set (b := {| chan_id := 1; topic := "realtime:b"; params := 1;
               joinedOnce := false; joinPayload := None |}).
  assert (Hchs : channels c = [a; b]) by reflexivity.
  split.
  - apply (Hper Hu a). rewrite Hchs. apply list_elem_of_here.
  - apply (Hper Hu b). rewrite Hchs.
    apply list_elem_of_further, list_elem_of_here.
Defined.
